(** * Easegress filters [Mock] and [Bridge]: a shallow embedding

    The development follows [pkg/filters/mock/mock.go] and
    [pkg/filters/bridge/bridge.go].  Both filters work on a request/response
    context: [Mock] picks the first rule that matches the request and writes
    a canned response, [Bridge] resolves a destination from a request header
    and hands the context over to the handler registered under that name.

    Go code is embedded as follows.
    - [string] is a Go string (a sequence of bytes), [int] and
      [time.Duration] are [Z].
    - A [map[string]T] is a [gmap string T]; [range] visits a map in an
      order picked by the runtime, which is the field [rangeOrder] of the
      class [Runtime].
    - A header ([net/http]'s [Header]) maps canonical names to the list of
      values carried under that name.
    - Calls that change the context, log, wait or dispatch run in the monad
      [M]: a state made of the context and of the trace of the calls made so
      far, with [panic] as the one way not to return.
    - Pointers to rules and to string matchers are taken to be non-nil, as
      the configuration decoder leaves them. *)

From Stdlib Require Import ZArith String Ascii List.
From stdpp Require Import base option list gmap strings fin_maps.

Local Open Scope string_scope.
Local Open Scope list_scope.

(** ** What the Go runtime and library decide *)

(** [canonicalKey] is [textproto.CanonicalMIMEHeaderKey], applied by every
    accessor of [http.Header] to the name it is given.  [rangeOrder m] is the
    order in which one [for k, v := range m] visits the entries of [m]: Go
    leaves it open, it is only known to visit every entry once. *)
Class Runtime := {
  canonicalKey : string → string;
  rangeOrder : ∀ {A : Type}, gmap string A → list (string * A);
  rangeOrder_perm : ∀ (A : Type) (m : gmap string A),
    rangeOrder m ≡ₚ map_to_list m
}.

(** A runtime that stores header names as given and visits maps in the order
    of [map_to_list]. *)
Definition plainRuntime : Runtime :=
  {| canonicalKey := λ s, s;
     rangeOrder := λ A m, map_to_list m;
     rangeOrder_perm := λ A m, reflexivity (map_to_list m) |}.

(** A runtime that visits maps in the reverse order. *)
Definition reverseRuntime : Runtime :=
  {| canonicalKey := λ s, s;
     rangeOrder := λ A m, reverse (map_to_list m);
     rangeOrder_perm := λ A m, reverse_Permutation (map_to_list m) |}.

(** ** Headers, requests, responses *)

Module Http.

(** Modelled from the spec: the header storage of the request and response
    abstraction ([pkg/protocols/httpprot], not among the sources), which
    wraps [http.Header]: [map[string][]string], keyed by canonical name. *)
Abbreviation Header := (gmap string (list string)).

Section HeaderCalls.
Context `{!Runtime}.

(** Modelled from the spec: the header accessor for all the values of a
    name, [Header.Values(key)]; none when the name is absent. *)
Definition Values (h : Header) (key : string) : list string :=
  default [] (h !! canonicalKey key).

(** Modelled from the spec: the header accessor [Header.Get(key)], with
    the behaviour of [http.Header]: the first value of [key], the empty
    string when there is none. *)
Definition Get (h : Header) (key : string) : string :=
  match Values h key with
  | [] => ""
  | v :: _ => v
  end.

(** Modelled from the spec: the header setter [Header.Set(key, value)],
    which overwrites: [key] now carries [value] alone. *)
Definition Set_ (h : Header) (key value : string) : Header :=
  <[canonicalKey key := [value]]> h.

(** Modelled from the spec: the header accessor that deletes by name,
    [Header.Del(key)]. *)
Definition Del (h : Header) (key : string) : Header :=
  delete (canonicalKey key) h.

End HeaderCalls.

Record Request := {
  req_path : string;
  req_header : Header
}.

Record Response := {
  resp_status : Z;
  resp_header : Header;
  resp_payload : string
}.

(** Modelled from the spec: the request and response abstraction behind
    [context.Context] ([pkg/context], not among the sources), as far as the
    two filters use it: the path and the headers of the request, the status
    code, the headers and the payload of the response. *)
Record Context := {
  ctx_request : Request;
  ctx_response : Response
}.

Definition with_req_header (h : Header) (c : Context) : Context :=
  {| ctx_request := {| req_path := req_path (ctx_request c); req_header := h |};
     ctx_response := ctx_response c |}.

Definition with_status (code : Z) (c : Context) : Context :=
  {| ctx_request := ctx_request c;
     ctx_response := {| resp_status := code;
                        resp_header := resp_header (ctx_response c);
                        resp_payload := resp_payload (ctx_response c) |} |}.

Definition with_resp_header (h : Header) (c : Context) : Context :=
  {| ctx_request := ctx_request c;
     ctx_response := {| resp_status := resp_status (ctx_response c);
                        resp_header := h;
                        resp_payload := resp_payload (ctx_response c) |} |}.

Definition with_payload (body : string) (c : Context) : Context :=
  {| ctx_request := ctx_request c;
     ctx_response := {| resp_status := resp_status (ctx_response c);
                        resp_header := resp_header (ctx_response c);
                        resp_payload := body |} |}.

(** [http.StatusServiceUnavailable] *)
Definition StatusServiceUnavailable : Z := 503.

(** Modelled from the spec: a handler of the registry,
    [Handler.Handle(ctx)].  It works on the context it is given and returns
    a result string; what it does is left open.  Handlers are taken to
    return. *)
Definition Handler : Type := Context → Context * string.

(** Modelled from the spec: the handler registry [context.MuxMapper],
    whose [GetHandler(name)] returns a handler and whether it exists; its
    content is left open. *)
Definition MuxMapper : Type := string → option Handler.

End Http.

(** ** Calls with an effect *)

Module Effect.
Import Http.

(** The logger calls the filters make. *)
Inductive Level := Debugf | Warnf | Errorf.

(** An argument of a logger format string. *)
Inductive Arg := AString (s : string) | ADuration (d : Z).

(** Which case of [select] ran: the request was done first, or the timer
    of [time.After] fired first.  The environment decides. *)
Inductive SelectCase := DoneFired | TimerFired.

(** One entry per call made on the context, the logger, the registry or a
    handler, in the order of the calls. *)
Inductive Event :=
| EvSetStatusCode (code : Z)
| EvRespHeaderSet (key value : string)
| EvSetReader (body : string)
| EvReqHeaderDel (key : string)
| EvLog (lvl : Level) (format : string) (args : list Arg)
| EvSelect (d : Z) (fired : SelectCase)
| EvGetHandler (name : string)
| EvHandle (name : string).

Record World := {
  w_ctx : Context;
  w_trace : list Event
}.

Inductive Result (A : Type) :=
| Ok (a : A) (w : World)
| Panic (msg : string).
Arguments Ok {A} a w.
Arguments Panic {A} msg.

Definition M (A : Type) : Type := World → Result A.

#[export] Instance M_ret : MRet M := λ A a w, Ok a w.

#[export] Instance M_bind : MBind M := λ A B f c w,
  match c w with
  | Ok a w' => f a w'
  | Panic msg => Panic msg
  end.

Definition panic {A : Type} (msg : string) : M A := λ _, Panic msg.

(** Read the context. *)
Definition ask : M Context := λ w, Ok (w_ctx w) w.

(** Change the context and record the call. *)
Definition call (e : Event) (f : Context → Context) : M unit :=
  λ w, Ok tt {| w_ctx := f (w_ctx w); w_trace := w_trace w ++ [e] |}.

Definition logf (lvl : Level) (format : string) (args : list Arg) : M unit :=
  call (EvLog lvl format args) id.

(** [l[i]], with Go's run-time panic out of range. *)
Definition index {A : Type} (l : list A) (i : nat) : M A :=
  match l !! i with
  | Some x => mret x
  | None => panic "index out of range"
  end.

(** [for _, x := range l { body(x) }] *)
Fixpoint forEach {A : Type} (l : list A) (body : A → M unit) : M unit :=
  match l with
  | [] => mret tt
  | x :: l' => body x ;; forEach l' body
  end.

Section Calls.
Context `{!Runtime}.

Definition ReqHeader_Get (key : string) : M string :=
  c ← ask; mret (Get (req_header (ctx_request c)) key).

Definition ReqHeader_Del (key : string) : M unit :=
  call (EvReqHeaderDel key)
    (λ c, with_req_header (Del (req_header (ctx_request c)) key) c).

Definition SetStatusCode (code : Z) : M unit :=
  call (EvSetStatusCode code) (with_status code).

Definition RespHeader_Set (key value : string) : M unit :=
  call (EvRespHeaderSet key value)
    (λ c, with_resp_header (Set_ (resp_header (ctx_response c)) key value) c).

(** [w.Payload().SetReader(strings.NewReader(body), true)] *)
Definition SetReader (body : string) : M unit :=
  call (EvSetReader body) (with_payload body).

(** [mapper.GetHandler(name)] *)
Definition GetHandler (mapper : MuxMapper) (name : string) : M (option Handler) :=
  call (EvGetHandler name) id ;; mret (mapper name).

(** [handler.Handle(ctx)] for the handler found under [name]. *)
Definition invoke (name : string) (handler : Handler) : M string :=
  λ w, let '(c, r) := handler (w_ctx w) in
       Ok r {| w_ctx := c; w_trace := w_trace w ++ [EvHandle name] |}.

(** [select] over [Done()] of the request and [time.After(d)]. *)
Definition selectDoneOrAfter (fired : SelectCase) (d : Z) : M SelectCase :=
  call (EvSelect d fired) id ;; mret fired.

End Calls.

End Effect.

(** [strings.HasPrefix(s, prefix)] *)
Definition HasPrefix (s prefix : string) : bool := String.prefix prefix s.

(** ** The filter [Mock] *)

Module Mock.
Import Http Effect.

(** Modelled from the spec: [urlrule.StringMatch] ([pkg/util/urlrule], not
    among the sources) as the filter uses it: the flag [Empty] and the
    method [Match], whatever policy (exact, prefix, regular expression) it
    was configured with. *)
Record StringMatch := {
  sm_Empty : bool;
  sm_Match : string → bool
}.

Record MatchRule := {
  mr_Path : string;
  mr_PathPrefix : string;
  mr_Headers : gmap string StringMatch;
  mr_MatchAllHeaders : bool
}.

Record Rule := {
  r_Match : MatchRule;
  r_Code : Z;
  r_Headers : gmap string string;
  r_Body : string;
  r_Delay : string;
  r_delay : Z
}.

Record Spec := { Rules : list Rule }.

Record Mock := { spec : Spec }.

Definition resultMocked : string := "mocked".

Section Match.
Context `{!Runtime}.

Definition matchPath (path : string) (rule : Rule) : bool :=
  if decide (mr_Path (r_Match rule) = "" ∧ mr_PathPrefix (r_Match rule) = "")
  then true
  else if decide (mr_Path (r_Match rule) = path)
  then true
  else if decide (mr_PathPrefix (r_Match rule) = "")
  then false
  else HasPrefix path (mr_PathPrefix (r_Match rule)).

Definition matchOneHeader (header : Header) (key : string) (rule : StringMatch) : bool :=
  let values := Values header key in
  if (length values =? 0)%nat then sm_Empty rule
  else if sm_Empty rule then false
  else existsb (sm_Match rule) values.

(** The loop of [matchHeader] over the entries of [rule.Match.Headers],
    in the order the runtime visits them. *)
Fixpoint matchHeaderLoop (header : Header) (matchAll : bool)
    (kvs : list (string * StringMatch)) : bool :=
  match kvs with
  | [] => matchAll
  | (key, r) :: kvs' =>
      if matchOneHeader header key r
      then (if negb matchAll then true else matchHeaderLoop header matchAll kvs')
      else (if matchAll then false else matchHeaderLoop header matchAll kvs')
  end.

Definition matchHeader (header : Header) (rule : Rule) : bool :=
  if (size (mr_Headers (r_Match rule)) =? 0)%nat then true
  else matchHeaderLoop header (mr_MatchAllHeaders (r_Match rule))
         (rangeOrder (mr_Headers (r_Match rule))).

(** The loop of [match] over [m.spec.Rules]. *)
Fixpoint matchLoop (path : string) (header : Header) (rules : list Rule) : option Rule :=
  match rules with
  | [] => None
  | rule :: rules' =>
      if matchPath path rule && matchHeader header rule
      then Some rule
      else matchLoop path header rules'
  end.

(** A rule passes when its path test and its header test both do: the
    condition of the loop of [match]. *)
Definition passes (ctx : Context) (rule : Rule) : Prop :=
  matchPath (req_path (ctx_request ctx)) rule
  && matchHeader (req_header (ctx_request ctx)) rule = true.

(** The method [match] of [Mock]; [None] is the nil pointer. *)
Definition match_ (m : Mock) (ctx : Context) : option Rule :=
  let path := req_path (ctx_request ctx) in
  let header := req_header (ctx_request ctx) in
  matchLoop path header (Rules (spec m)).

(** The method [mock] of [Mock]. *)
Definition mock (fired : SelectCase) (rule : Rule) : M unit :=
  SetStatusCode (r_Code rule) ;;
  forEach (rangeOrder (r_Headers rule))
    (λ kv, RespHeader_Set kv.1 kv.2) ;;
  SetReader (r_Body rule) ;;
  if (r_delay rule <=? 0)%Z then mret tt
  else
    logf Debugf "delay for %v ..." [ADuration (r_delay rule)] ;;
    c ← selectDoneOrAfter fired (r_delay rule);
    match c with
    | DoneFired =>
        logf Debugf "request cancelled in the middle of delay mocking" []
    | TimerFired => mret tt
    end.

(** The method [Handle] of [Mock]. *)
Definition Handle (fired : SelectCase) (m : Mock) : M string :=
  ctx ← ask;
  match match_ m ctx with
  | Some rule => mock fired rule ;; mret resultMocked
  | None => mret ""
  end.

End Match.

Section Reload.

(** [time.ParseDuration]: a duration and an error, [None] for [nil]. *)
Variable ParseDuration : string → Z * option string.

Definition set_delay (d : Z) (r : Rule) : Rule :=
  {| r_Match := r_Match r; r_Code := r_Code r; r_Headers := r_Headers r;
     r_Body := r_Body r; r_Delay := r_Delay r; r_delay := d |}.

(** The body of the loop of [reload], for one rule. *)
Definition reloadRule (r : Rule) : Rule :=
  if decide (r_Delay r = "") then r
  else set_delay (ParseDuration (r_Delay r)).1 r.

(** The method [reload] of [Mock]: the rules are changed in place. *)
Definition reload (m : Mock) : Mock :=
  {| spec := {| Rules := reloadRule <$> Rules (spec m) |} |}.

(** The method [Init] of [Mock]. *)
Definition Init (s : Spec) : Mock := reload {| spec := s |}.

End Reload.

(** A rule as the configuration decoder leaves it: the field [delay] is
    not exported, so it holds the zero value. *)
Definition decoded (r : Rule) : Prop := r_delay r = 0%Z.

(** The results the filter declares in [kind.Results]. *)
Definition Results : list string := [resultMocked].

End Mock.

(** ** The filter [Bridge] *)

Module Bridge.
Import Http Effect.

Definition resultDestinationNotFound : string := "destinationNotFound".
Definition resultInvokeDestinationFailed : string := "invokeDestinationFailed".
Definition bridgeDestHeader : string := "X-Easegress-Bridge-Dest".

(** The results the filter declares in [kind.Results]. *)
Definition Results : list string :=
  [resultDestinationNotFound; resultInvokeDestinationFailed].

Record Spec := { Destinations : list string }.

Record Bridge := {
  spec : Spec;
  muxMapper : MuxMapper
}.

Section Handle.
Context `{!Runtime}.

(** The loop of [Handle] over [b.spec.Destinations]. *)
Fixpoint scan (dest : string) (ds : list string) : M bool :=
  match ds with
  | [] => mret false
  | d :: ds' =>
      if decide (d = dest)
      then ReqHeader_Del bridgeDestHeader ;; mret true
      else scan dest ds'
  end.

(** The method [Handle] of [Bridge]. *)
Definition Handle (b : Bridge) : M string :=
  if (length (Destinations (spec b)) <=? 0)%nat
  then panic "not any destination defined"
  else
    dest ← ReqHeader_Get bridgeDestHeader;
    chosen ←
      (if decide (dest = "")
       then
         d0 ← index (Destinations (spec b)) 0;
         logf Warnf "destination not defined, will choose the first dest: %s"
           [AString d0] ;;
         d0 ← index (Destinations (spec b)) 0;
         mret (d0, true)
       else
         found ← scan dest (Destinations (spec b));
         mret (dest, found));
    let '(dest, found) := chosen in
    if negb found
    then
      logf Errorf "dest not found: %s" [AString dest] ;;
      SetStatusCode StatusServiceUnavailable ;;
      mret resultDestinationNotFound
    else
      h ← GetHandler (muxMapper b) dest;
      match h with
      | None =>
          d0 ← index (Destinations (spec b)) 0;
          logf Errorf "failed to get running object %s" [AString d0] ;;
          SetStatusCode StatusServiceUnavailable ;;
          mret resultDestinationNotFound
      | Some handler =>
          invoke dest handler ;;
          mret ""
      end.

End Handle.

(** The method [reload] of [Bridge]: a list without a destination is
    reported to the logger and kept. *)
Definition reload (b : Bridge) : M unit :=
  if (length (Destinations (spec b)) <=? 0)%nat
  then logf Errorf "not any destination defined" []
  else mret tt.

(** The method [Init] of [Bridge]: the filter takes the new [spec] and
    keeps its other field. *)
Definition Init (s : Spec) (b : Bridge) : M Bridge :=
  let b := {| spec := s; muxMapper := muxMapper b |} in
  reload b ;; mret b.

(** The method [InjectMuxMapper] of [Bridge]. *)
Definition InjectMuxMapper (mapper : MuxMapper) (b : Bridge) : Bridge :=
  {| spec := spec b; muxMapper := mapper |}.

End Bridge.

(** ** Concrete requests and configurations *)

Module Examples.
Import Http Effect.

Definition request (path : string) (h : Header) : Context :=
  {| ctx_request := {| req_path := path; req_header := h |};
     ctx_response := {| resp_status := 200; resp_header := ∅; resp_payload := "" |} |}.

Definition world (path : string) (h : Header) : World :=
  {| w_ctx := request path h; w_trace := [] |}.

(** A request that carries the signal header of [Bridge] with one value. *)
Definition signal (value : string) : Header :=
  {[ Bridge.bridgeDestHeader := [value] ]}.

(** A handler that answers with the body [echo] and, as its result, the
    string that [Bridge] declares and never returns. *)
Definition echo : Handler :=
  λ c, (with_payload "echo" c, Bridge.resultInvokeDestinationFailed).

(** A registry that knows [b] alone. *)
Definition mapperB : MuxMapper :=
  λ name, if String.eqb name "b" then Some echo else None.

(** A registry that knows every name. *)
Definition mapperAll : MuxMapper := λ name, Some echo.

Definition bridge (mapper : MuxMapper) : Bridge.Bridge :=
  {| Bridge.spec := {| Bridge.Destinations := ["a"; "b"] |};
     Bridge.muxMapper := mapper |}.

Definition exact (s : string) : Mock.StringMatch :=
  {| Mock.sm_Empty := false; Mock.sm_Match := String.eqb s |}.

Definition whenAbsent : Mock.StringMatch :=
  {| Mock.sm_Empty := true; Mock.sm_Match := λ _, false |}.

Definition matchRule (path pathPrefix : string)
    (headers : gmap string Mock.StringMatch) (all : bool) : Mock.MatchRule :=
  {| Mock.mr_Path := path; Mock.mr_PathPrefix := pathPrefix;
     Mock.mr_Headers := headers; Mock.mr_MatchAllHeaders := all |}.

Definition rule (m : Mock.MatchRule) (code : Z) (delayText : string) (delay : Z) : Mock.Rule :=
  {| Mock.r_Match := m; Mock.r_Code := code;
     Mock.r_Headers := {[ "X" := "v" ]}; Mock.r_Body := "hi";
     Mock.r_Delay := delayText; Mock.r_delay := delay |}.

(** A stand-in for [time.ParseDuration] that knows one text. *)
Definition parseToy (s : string) : Z * option string :=
  if String.eqb s "100ms" then (100000000%Z, None)
  else (0%Z, Some "time: invalid duration").

End Examples.

(** ** Proof steps *)

(** Unfold the monad and the calls that only read. *)
Ltac run :=
  unfold Effect.ReqHeader_Get, Effect.ask, mbind, Effect.M_bind, mret, Effect.M_ret;
  cbv beta iota.

(** An event of another kind than those of an explicit list is not in it. *)
Ltac not_listed :=
  let Hin := fresh "Hin" in
  intros Hin;
  repeat (apply elem_of_cons in Hin as [Hin|Hin]; [discriminate Hin|]);
  by apply elem_of_nil in Hin.

(** * Properties *)

(** ** Strings, maps and the monad *)

Lemma HasPrefix_iff (s prefix : string) :
  HasPrefix s prefix = true ↔ ∃ rest, s = prefix +:+ rest.
Proof.
  unfold HasPrefix. revert s.
  induction prefix as [|a p IH]; intros s; simpl.
  - split; [intros _; by exists s | by destruct s].
  - destruct s as [|b s]; simpl.
    + split; [done | by intros [rest ?]].
    + destruct (ascii_dec a b) as [->|Hne].
      * rewrite IH. split; intros [rest Hr]; exists rest.
        -- by rewrite Hr.
        -- by injection Hr.
      * split; [done | intros [rest Hr]]. by injection Hr.
Qed.

Lemma elem_of_rangeOrder `{!Runtime} {A : Type} (m : gmap string A)
    (key : string) (x : A) :
  (key, x) ∈ rangeOrder m ↔ m !! key = Some x.
Proof. by rewrite (rangeOrder_perm A m), elem_of_map_to_list. Qed.

(** ** Matching a request against the rules of [Mock] *)

Module MockMatch.
Import Http Effect Mock.

Section Facts.
Context `{!Runtime}.

Lemma matchLoop_Some path header rules rule :
  matchLoop path header rules = Some rule ↔
  ∃ before after, rules = before ++ rule :: after
    ∧ matchPath path rule && matchHeader header rule = true
    ∧ Forall (λ r, matchPath path r && matchHeader header r ≠ true) before.
Proof.
  induction rules as [|r rules IH]; simpl.
  - split; [done | intros (before & after & Heq & _)]. by destruct before.
  - destruct (matchPath path r && matchHeader header r) eqn:Hr.
    + split.
      * intros [= ->]. exists [], rules. by repeat split.
      * intros ([|r' before] & after & Heq & Hpass & Hbefore).
        -- by injection Heq as -> _.
        -- injection Heq as <- _. apply Forall_cons in Hbefore as [Hno _].
           by rewrite Hr in Hno.
    + rewrite IH. split.
      * intros (before & after & -> & Hpass & Hbefore).
        exists (r :: before), after. repeat split; [done|].
        constructor; [by rewrite Hr | done].
      * intros ([|r' before] & after & Heq & Hpass & Hbefore).
        -- injection Heq as -> _. by rewrite Hr in Hpass.
        -- injection Heq as <- ->. apply Forall_cons in Hbefore as [_ ?].
           by exists before, after.
Qed.

Lemma matchLoop_None path header rules :
  matchLoop path header rules = None ↔
  Forall (λ r, matchPath path r && matchHeader header r ≠ true) rules.
Proof.
  induction rules as [|r rules IH]; simpl.
  - split; [constructor | done].
  - destruct (matchPath path r && matchHeader header r) eqn:Hr.
    + split; [done | intros [Hno _]%Forall_cons]. by rewrite Hr in Hno.
    + rewrite IH. split; [intros ?; constructor; [by rewrite Hr | done]|].
      by intros [_ ?]%Forall_cons.
Qed.

(** C1. [match] returns the first rule, in the order of the configuration,
    whose path test and header test both pass: the rules before it all fail
    one of the tests.  It returns nil exactly when no rule passes both.  Of
    two rules that pass, the later one is never the rule returned: the rule
    returned stands at or before the earlier one. *)
Theorem match_first_rule (m : Mock) (ctx : Context) :
  (∀ rule, match_ m ctx = Some rule ↔
     ∃ before after, Rules (spec m) = before ++ rule :: after
       ∧ passes ctx rule ∧ Forall (λ r, ¬ passes ctx r) before)
  ∧ (match_ m ctx = None ↔ Forall (λ r, ¬ passes ctx r) (Rules (spec m)))
  ∧ (∀ i j ri rj, (i < j)%nat →
       Rules (spec m) !! i = Some ri → Rules (spec m) !! j = Some rj →
       passes ctx ri → passes ctx rj →
       ∃ k rk, (k ≤ i)%nat ∧ Rules (spec m) !! k = Some rk
         ∧ match_ m ctx = Some rk
         ∧ ∀ k' r', (k' < k)%nat → Rules (spec m) !! k' = Some r' → ¬ passes ctx r').
Proof.
  unfold match_, passes. split; [|split].
  - intros rule. apply matchLoop_Some.
  - apply matchLoop_None.
  - intros i j ri rj Hij Hi Hj Hpi Hpj.
    destruct (matchLoop (req_path (ctx_request ctx))
                (req_header (ctx_request ctx)) (Rules (spec m))) as [rk|] eqn:Hm.
    + apply matchLoop_Some in Hm as (before & after & Heq & Hpk & Hbefore).
      exists (length before), rk.
      assert (Hk : Rules (spec m) !! length before = Some rk).
      { rewrite Heq. by rewrite list_lookup_middle. }
      assert (Hfail : ∀ k' r', (k' < length before)%nat →
                Rules (spec m) !! k' = Some r' →
                matchPath (req_path (ctx_request ctx)) r'
                && matchHeader (req_header (ctx_request ctx)) r' ≠ true).
      { intros k' r' Hlt Hl. rewrite Heq, lookup_app_l in Hl by done.
        rewrite Forall_lookup in Hbefore. by eapply Hbefore. }
      split; [|done].
      destruct (decide (length before ≤ i)%nat) as [|Hgt]; [done|].
      exfalso. apply (Hfail i ri); [lia | done | done].
    + apply matchLoop_None in Hm. rewrite Forall_lookup in Hm.
      exfalso. by apply (Hm i ri).
Qed.

Lemma matchHeaderLoop_all header kvs :
  matchHeaderLoop header true kvs = true ↔
  ∀ key r, (key, r) ∈ kvs → matchOneHeader header key r = true.
Proof.
  induction kvs as [|[key r] kvs IH]; simpl.
  - split; [intros _ ?? Hin; by apply elem_of_nil in Hin | done].
  - destruct (matchOneHeader header key r) eqn:Hone.
    + rewrite IH. split.
      * intros Hall k' r' [[= -> ->]|Hin]%elem_of_cons; [done | by apply Hall].
      * intros Hall k' r' Hin. apply Hall. by right.
    + split; [done | intros Hall]. rewrite <- Hone. apply Hall. by left.
Qed.

Lemma matchHeaderLoop_any header kvs :
  matchHeaderLoop header false kvs = true ↔
  ∃ key r, (key, r) ∈ kvs ∧ matchOneHeader header key r = true.
Proof.
  induction kvs as [|[key r] kvs IH]; simpl.
  - split; [done | intros (? & ? & Hin & _); by apply elem_of_nil in Hin].
  - destruct (matchOneHeader header key r) eqn:Hone.
    + split; [intros _ | done]. exists key, r. split; [by left | done].
    + rewrite IH. split.
      * intros (k' & r' & Hin & Hok). exists k', r'. split; [by right | done].
      * intros (k' & r' & [[= -> ->]|Hin]%elem_of_cons & Hok); [congruence|].
        by exists k', r'.
Qed.

(** C2. The header test of a rule.  With no header rule it passes.  With
    one header rule or more it passes, when [matchAllHeaders] is set,
    exactly when every header rule is satisfied, and when [matchAllHeaders]
    is not set, exactly when one header rule at least is satisfied (so it
    fails when none is).  This holds whatever the order in which the runtime
    visits the header rules. *)
Theorem matchHeader_all_or_any (header : Header) (rule : Rule) :
  (mr_Headers (r_Match rule) = ∅ → matchHeader header rule = true)
  ∧ (mr_Headers (r_Match rule) ≠ ∅ →
     mr_MatchAllHeaders (r_Match rule) = true →
     (matchHeader header rule = true ↔
      ∀ key r, mr_Headers (r_Match rule) !! key = Some r →
               matchOneHeader header key r = true))
  ∧ (mr_Headers (r_Match rule) ≠ ∅ →
     mr_MatchAllHeaders (r_Match rule) = false →
     (matchHeader header rule = true ↔
      ∃ key r, mr_Headers (r_Match rule) !! key = Some r
               ∧ matchOneHeader header key r = true)).
Proof.
  unfold matchHeader. split; [|split].
  - intros ->. by rewrite map_size_empty.
  - intros Hne ->.
    destruct (size (mr_Headers (r_Match rule)) =? 0)%nat eqn:Hsize.
    { apply Nat.eqb_eq, map_size_empty_iff in Hsize. done. }
    rewrite matchHeaderLoop_all.
    split; intros Hall key r Hin; apply Hall; by apply elem_of_rangeOrder.
  - intros Hne ->.
    destruct (size (mr_Headers (r_Match rule)) =? 0)%nat eqn:Hsize.
    { apply Nat.eqb_eq, map_size_empty_iff in Hsize. done. }
    rewrite matchHeaderLoop_any.
    split; intros (key & r & Hin & Hok); exists key, r;
      (split; [by apply elem_of_rangeOrder | done]).
Qed.

(** C3. One header rule against the request.  When the request carries no
    value under the name, the rule is satisfied exactly when its
    [StringMatch] has [Empty] set.  When the request carries a value or
    more, a rule with [Empty] set is not satisfied, and a rule without it is
    satisfied exactly when one of the values satisfies [Match].  The test
    takes no [matchAllHeaders]: the values of one header are alternatives
    in every rule. *)
Theorem matchOneHeader_cases (header : Header) (key : string) (rule : StringMatch) :
  (Values header key = [] →
     (matchOneHeader header key rule = true ↔ sm_Empty rule = true))
  ∧ (Values header key ≠ [] → sm_Empty rule = true →
     matchOneHeader header key rule = false)
  ∧ (Values header key ≠ [] → sm_Empty rule = false →
     (matchOneHeader header key rule = true ↔
      ∃ v, v ∈ Values header key ∧ sm_Match rule v = true)).
Proof.
  unfold matchOneHeader. split; [|split].
  - by intros ->.
  - intros Hne ->. by destruct (Values header key).
  - intros Hne ->. destruct (Values header key) as [|v vs] eqn:Hv; [done|].
    simpl length. simpl Nat.eqb. cbv iota.
    rewrite existsb_exists.
    split; intros (x & Hin & Hok); exists x; (split; [|done]);
      by apply list_elem_of_In.
Qed.

(** C4. The path test of a rule.  It passes when the rule has neither
    [path] nor [pathPrefix]; otherwise it passes when the path of the
    request equals [path]; otherwise, with a [pathPrefix], it passes exactly
    when the path of the request starts with [pathPrefix]; otherwise it
    fails.  A rule with only the path [/a] does not match the request path
    [/a/b]. *)
Theorem matchPath_cases (path : string) (rule : Rule) :
  let p := mr_Path (r_Match rule) in
  let pp := mr_PathPrefix (r_Match rule) in
  (p = "" → pp = "" → matchPath path rule = true)
  ∧ (¬ (p = "" ∧ pp = "") → p = path → matchPath path rule = true)
  ∧ (¬ (p = "" ∧ pp = "") → p ≠ path → pp ≠ "" →
     (matchPath path rule = true ↔ ∃ rest, path = pp +:+ rest))
  ∧ (¬ (p = "" ∧ pp = "") → p ≠ path → pp = "" →
     matchPath path rule = false)
  ∧ (p = "/a" → pp = "" → path = "/a/b" → matchPath path rule = false).
Proof.
  unfold matchPath. simpl. repeat split.
  - intros. by rewrite decide_True.
  - intros. rewrite decide_False, decide_True; done.
  - rewrite !decide_False by done. by intros ?%HasPrefix_iff.
  - rewrite !decide_False by done. by intros ?%HasPrefix_iff.
  - intros. rewrite decide_False, decide_False, decide_True; done.
  - intros Hp Hpp ->. rewrite Hp, Hpp.
    rewrite decide_False by (by intros [? _]).
    rewrite decide_False by done. by rewrite decide_True.
Qed.

End Facts.

(** The order of the visit does not show in the header test: two runtimes
    that agree on header names give the same answer. *)
Lemma matchHeader_order_irrelevant (R1 R2 : Runtime) (header : Header) (rule : Rule) :
  @canonicalKey R1 = @canonicalKey R2 →
  @matchHeader R1 header rule = @matchHeader R2 header rule.
Proof.
  intros Hcanon.
  assert (Hone : ∀ key r, @matchOneHeader R1 header key r = @matchOneHeader R2 header key r).
  { intros key r. unfold matchOneHeader, Values. by rewrite Hcanon. }
  unfold matchHeader.
  destruct (size (mr_Headers (r_Match rule)) =? 0)%nat; [done|].
  apply Bool.eq_iff_eq_true.
  destruct (mr_MatchAllHeaders (r_Match rule)).
  - rewrite (@matchHeaderLoop_all R1), (@matchHeaderLoop_all R2).
    split; intros Hok key r Hin.
    + rewrite <- Hone. by apply Hok, (@elem_of_rangeOrder R1), (@elem_of_rangeOrder R2).
    + rewrite Hone. by apply Hok, (@elem_of_rangeOrder R2), (@elem_of_rangeOrder R1).
  - rewrite (@matchHeaderLoop_any R1), (@matchHeaderLoop_any R2).
    split; intros (key & r & Hin & Hok); exists key, r.
    + split; [by apply (@elem_of_rangeOrder R2), (@elem_of_rangeOrder R1)|].
      by rewrite <- Hone.
    + split; [by apply (@elem_of_rangeOrder R1), (@elem_of_rangeOrder R2)|].
      by rewrite Hone.
Qed.

End MockMatch.

(** ** The response written by [Mock] *)

Module MockRespond.
Import Http Effect Mock.

Section Facts.
Context `{!Runtime}.

(** A name that no call of a run of [Set] uses keeps its values. *)
Lemma foldl_Set_other (kvs : list (string * string)) (h : Header) (k : string) :
  (∀ kv, kv ∈ kvs → canonicalKey kv.1 ≠ k) →
  foldl (λ h kv, Set_ h kv.1 kv.2) h kvs !! k = h !! k.
Proof.
  revert h. induction kvs as [|kv kvs IH]; intros h Hne; simpl; [done|].
  rewrite IH by (intros; apply Hne; by right).
  unfold Set_. apply lookup_insert_ne, Hne. by left.
Qed.

(** A name that a call of the run uses carries the value of one such call
    (the last one). *)
Lemma foldl_Set_named (kvs : list (string * string)) (h : Header) (k : string) :
  (∃ kv, kv ∈ kvs ∧ canonicalKey kv.1 = k) →
  ∃ kv, kv ∈ kvs ∧ canonicalKey kv.1 = k
        ∧ foldl (λ h kv, Set_ h kv.1 kv.2) h kvs !! k = Some [kv.2].
Proof.
  revert h. induction kvs as [|kv kvs IH]; intros h (kv0 & Hin & Hk); simpl.
  - by apply elem_of_nil in Hin.
  - destruct (decide (Exists (λ kv, canonicalKey kv.1 = k) kvs)) as [Hex|Hno].
    + apply Exists_exists in Hex.
      destruct (IH (Set_ h kv.1 kv.2) Hex) as (kv' & Hin' & Hk' & Hl).
      exists kv'. split; [by right | done].
    + assert (Hne : ∀ kv', kv' ∈ kvs → canonicalKey kv'.1 ≠ k).
      { intros kv' Hin' Heq. apply Hno, Exists_exists. by exists kv'. }
      apply elem_of_cons in Hin as [->|Hin]; [|by apply Hne in Hin].
      exists kv. split; [by left|]. split; [done|].
      rewrite foldl_Set_other by done. unfold Set_. rewrite Hk.
      apply lookup_insert_eq.
Qed.

Lemma forEach_Set (kvs : list (string * string)) (w : World) :
  forEach kvs (λ kv, RespHeader_Set kv.1 kv.2) w =
  Ok tt {| w_ctx := with_resp_header
                      (foldl (λ h kv, Set_ h kv.1 kv.2)
                         (resp_header (ctx_response (w_ctx w))) kvs)
                      (w_ctx w);
           w_trace := w_trace w ++ ((λ kv, EvRespHeaderSet kv.1 kv.2) <$> kvs) |}.
Proof.
  revert w. induction kvs as [|kv kvs IH]; intros w.
  - simpl. rewrite app_nil_r. by destruct w as [[? []] ?].
  - simpl forEach. unfold mbind, M_bind. unfold RespHeader_Set at 1, call.
    rewrite IH. simpl. by rewrite <- app_assoc.
Qed.

(** What a call of [mock] returns, and the calls it makes in their order. *)
Lemma mock_run (fired : SelectCase) (rule : Rule) (w : World) :
  mock fired rule w =
  Ok tt
    {| w_ctx :=
         with_payload (r_Body rule)
           (with_resp_header
              (foldl (λ h kv, Set_ h kv.1 kv.2)
                 (resp_header (ctx_response (w_ctx w)))
                 (rangeOrder (r_Headers rule)))
              (with_status (r_Code rule) (w_ctx w)));
       w_trace :=
         w_trace w ++ [EvSetStatusCode (r_Code rule)]
         ++ ((λ kv, EvRespHeaderSet kv.1 kv.2) <$> rangeOrder (r_Headers rule))
         ++ [EvSetReader (r_Body rule)]
         ++ (if (r_delay rule <=? 0)%Z then []
             else EvLog Debugf "delay for %v ..." [ADuration (r_delay rule)]
                  :: EvSelect (r_delay rule) fired
                  :: match fired with
                     | DoneFired =>
                         [EvLog Debugf
                            "request cancelled in the middle of delay mocking" []]
                     | TimerFired => []
                     end) |}.
Proof.
  unfold mock. unfold mbind, M_bind. unfold SetStatusCode at 1, call.
  rewrite forEach_Set. simpl.
  destruct (r_delay rule <=? 0)%Z; [|destruct fired];
    unfold mret, M_ret, logf, selectDoneOrAfter, call, mbind, M_bind; simpl;
    rewrite <- ?app_assoc; reflexivity.
Qed.

(** C7. For a rule and a context, [mock] returns (there is no error to
    return) with the status code of the response set to the code of the
    rule, the body replaced by the body of the rule, and a [Set] call made
    for every configured header: the response then carries, under the name
    of a configured header, one value configured for that name, which is
    the value of that header when no other configured name has the same
    canonical form.  The calls are, in this order: the status code, the
    headers, the body, and only then the wait, if the delay is positive;
    the wait makes no call that changes the context.  The context is the
    same whichever case of the wait runs, the end of the delay or the
    cancellation of the request, and [Handle] returns [mocked] in both
    for a rule that matched. *)
Theorem mock_synthesizes (fired : SelectCase) (rule : Rule) (w : World) :
  ∃ w',
    mock fired rule w = Ok tt w'
    ∧ resp_status (ctx_response (w_ctx w')) = r_Code rule
    ∧ resp_payload (ctx_response (w_ctx w')) = r_Body rule
    ∧ (∀ key value, r_Headers rule !! key = Some value →
         EvRespHeaderSet key value ∈ w_trace w'
         ∧ ∃ key' value', r_Headers rule !! key' = Some value'
             ∧ canonicalKey key' = canonicalKey key
             ∧ Values (resp_header (ctx_response (w_ctx w'))) key = [value'])
    ∧ (∀ key value, r_Headers rule !! key = Some value →
         (∀ key', is_Some (r_Headers rule !! key') →
                  canonicalKey key' = canonicalKey key → key' = key) →
         Values (resp_header (ctx_response (w_ctx w'))) key = [value])
    ∧ ctx_request (w_ctx w') = ctx_request (w_ctx w)
    ∧ (∃ wait,
         w_trace w' =
           w_trace w ++ [EvSetStatusCode (r_Code rule)]
           ++ ((λ kv, EvRespHeaderSet kv.1 kv.2) <$> rangeOrder (r_Headers rule))
           ++ [EvSetReader (r_Body rule)] ++ wait
         ∧ wait =
             (if (r_delay rule <=? 0)%Z then []
              else EvLog Debugf "delay for %v ..." [ADuration (r_delay rule)]
                   :: EvSelect (r_delay rule) fired
                   :: match fired with
                      | DoneFired =>
                          [EvLog Debugf
                             "request cancelled in the middle of delay mocking" []]
                      | TimerFired => []
                      end))
    ∧ (∀ fired', ∃ w'', mock fired' rule w = Ok tt w'' ∧ w_ctx w'' = w_ctx w')
    ∧ (∀ m, match_ m (w_ctx w) = Some rule →
         Handle fired m w = Ok resultMocked w').
Proof.
  eexists. split; [apply mock_run|]. simpl.
  split; [done|]. split; [done|].
  assert (Hnamed : ∀ key value, r_Headers rule !! key = Some value →
            ∃ key' value', r_Headers rule !! key' = Some value'
              ∧ canonicalKey key' = canonicalKey key
              ∧ Values (foldl (λ h kv, Set_ h kv.1 kv.2)
                          (resp_header (ctx_response (w_ctx w)))
                          (rangeOrder (r_Headers rule))) key = [value']).
  { intros key value Hkey.
    destruct (foldl_Set_named (rangeOrder (r_Headers rule))
                (resp_header (ctx_response (w_ctx w))) (canonicalKey key))
      as ([key' value'] & Hin & Hcanon & Hl).
    { exists (key, value). split; [by apply elem_of_rangeOrder | done]. }
    exists key', value'. apply elem_of_rangeOrder in Hin.
    split; [done|]. split; [done|]. unfold Values. by rewrite Hl. }
  split; [|split; [|split; [|split; [|split]]]].
  - intros key value Hkey. split; [|by apply Hnamed with value].
    apply elem_of_app. right. apply elem_of_cons. right.
    apply elem_of_app. left.
    apply (list_elem_of_fmap_2 (λ kv, EvRespHeaderSet kv.1 kv.2) _ (key, value)).
    by apply elem_of_rangeOrder.
  - intros key value Hkey Huniq.
    destruct (Hnamed key value Hkey) as (key' & value' & Hkey' & Hcanon & Hv).
    rewrite Hv. apply Huniq in Hcanon as ->; [|by eexists]. congruence.
  - done.
  - eexists. split; [reflexivity | done].
  - intros fired'. eexists. split; [apply mock_run | done].
  - intros m Hm. unfold Handle. run. simpl w_ctx.
    rewrite Hm. by rewrite mock_run.
Qed.

(** The fields that [mock] reads: it does not read the text of the delay. *)
Lemma mock_reads (fired : SelectCase) (r1 r2 : Rule) (w : World) :
  r_Code r1 = r_Code r2 → r_Headers r1 = r_Headers r2 →
  r_Body r1 = r_Body r2 → r_delay r1 = r_delay r2 →
  mock fired r1 w = mock fired r2 w.
Proof. intros Hc Hh Hb Hd. unfold mock. by rewrite Hc, Hh, Hb, Hd. Qed.

End Facts.

Section Delay.
Context `{!Runtime}.
Variable ParseDuration : string → Z * option string.

(** C8. The delay of a rule is parsed when the configuration is loaded:
    after [Init] the field [delay] of a rule with a delay text holds what
    the parser returned for the text, and [mock] reads that field and never
    the text.  For a decoded rule whose text the parser rejects (the parser
    returning, as Go's does, the zero duration with its error), the field is
    zero after [Init], and [mock] applies the rule without waiting: its
    calls are the status code, the headers and the body, and it returns. *)
Theorem invalid_delay_is_zero (s : Spec) (i : nat) (r : Rule) :
  (∀ text err, (ParseDuration text).2 = Some err → (ParseDuration text).1 = 0%Z) →
  Rules s !! i = Some r →
  decoded r →
  ∃ r',
    Rules (spec (Init ParseDuration s)) !! i = Some r'
    ∧ r_Match r' = r_Match r ∧ r_Code r' = r_Code r
    ∧ r_Headers r' = r_Headers r ∧ r_Body r' = r_Body r
    ∧ r_Delay r' = r_Delay r
    ∧ (r_Delay r ≠ "" → r_delay r' = (ParseDuration (r_Delay r)).1)
    ∧ (∀ fired text w,
         mock fired
           {| r_Match := r_Match r'; r_Code := r_Code r'; r_Headers := r_Headers r';
              r_Body := r_Body r'; r_Delay := text; r_delay := r_delay r' |} w
         = mock fired r' w)
    ∧ (∀ err, (ParseDuration (r_Delay r)).2 = Some err →
         r_delay r' = 0%Z
         ∧ ∀ fired w, ∃ w',
             mock fired r' w = Ok tt w'
             ∧ w_trace w' =
                 w_trace w ++ [EvSetStatusCode (r_Code r)]
                 ++ ((λ kv, EvRespHeaderSet kv.1 kv.2) <$> rangeOrder (r_Headers r))
                 ++ [EvSetReader (r_Body r)]).
Proof.
  intros Hzero Hi Hdec. exists (reloadRule ParseDuration r).
  split.
  { unfold Init, reload. simpl. by rewrite list_lookup_fmap, Hi. }
  assert (Hsame : r_Match (reloadRule ParseDuration r) = r_Match r
            ∧ r_Code (reloadRule ParseDuration r) = r_Code r
            ∧ r_Headers (reloadRule ParseDuration r) = r_Headers r
            ∧ r_Body (reloadRule ParseDuration r) = r_Body r
            ∧ r_Delay (reloadRule ParseDuration r) = r_Delay r).
  { unfold reloadRule. by destruct (decide (r_Delay r = "")). }
  destruct Hsame as (Hm & Hc & Hh & Hb & Ht).
  repeat (split; [done|]). split; [|split].
  - intros Hne. unfold reloadRule. by rewrite decide_False.
  - intros fired text w. by apply mock_reads.
  - intros err Herr.
    assert (Hd : r_delay (reloadRule ParseDuration r) = 0%Z).
    { unfold reloadRule. destruct (decide (r_Delay r = "")); [done|].
      simpl. by apply Hzero with err. }
    split; [done|]. intros fired w. eexists. split; [apply mock_run|].
    simpl. rewrite Hd, Hc, Hh, Hb. simpl. by rewrite ?app_nil_r.
Qed.

End Delay.

End MockRespond.

(** ** Routing by [Bridge] *)

Module BridgeRoute.
Import Http Effect Bridge.

Section Facts.
Context `{!Runtime}.

Lemma Values_nil_Get (h : Header) (key : string) :
  Values h key = [] → Get h key = "".
Proof. unfold Get. by intros ->. Qed.

Lemma Values_Del (h : Header) (key : string) :
  Values (Del h key) key = [].
Proof. unfold Values, Del. by rewrite lookup_delete_eq. Qed.

(** The loop over the destinations: it deletes the signal header when it
    finds the destination, and does nothing else. *)
Lemma scan_run (dest : string) (ds : list string) (w : World) :
  scan dest ds w =
  if decide (dest ∈ ds)
  then Ok true
         {| w_ctx := with_req_header
                       (Del (req_header (ctx_request (w_ctx w))) bridgeDestHeader)
                       (w_ctx w);
            w_trace := w_trace w ++ [EvReqHeaderDel bridgeDestHeader] |}
  else Ok false w.
Proof.
  induction ds as [|d ds IH].
  - reflexivity.
  - simpl scan. destruct (decide (d = dest)) as [->|Hne].
    + rewrite decide_True by left. done.
    + rewrite IH. destruct (decide (dest ∈ ds)) as [Hin|Hout].
      * rewrite decide_True by (by right). done.
      * rewrite decide_False; [done|].
        intros [->|?]%elem_of_cons; done.
Qed.

Lemma Handle_panic (b : Bridge) (w : World) :
  Destinations (spec b) = [] →
  Handle b w = Panic "not any destination defined".
Proof. unfold Handle. by intros ->. Qed.

(** [Get] returns the empty string: the first destination is taken. *)
Lemma Handle_default (b : Bridge) (w : World) (d0 : string) :
  Get (req_header (ctx_request (w_ctx w))) bridgeDestHeader = "" →
  Destinations (spec b) !! 0%nat = Some d0 →
  Handle b w =
  match muxMapper b d0 with
  | Some handler =>
      Ok "" {| w_ctx := (handler (w_ctx w)).1;
               w_trace := w_trace w ++
                 [EvLog Warnf "destination not defined, will choose the first dest: %s"
                    [AString d0];
                  EvGetHandler d0; EvHandle d0] |}
  | None =>
      Ok resultDestinationNotFound
        {| w_ctx := with_status StatusServiceUnavailable (w_ctx w);
           w_trace := w_trace w ++
             [EvLog Warnf "destination not defined, will choose the first dest: %s"
                [AString d0];
              EvGetHandler d0;
              EvLog Errorf "failed to get running object %s" [AString d0];
              EvSetStatusCode StatusServiceUnavailable] |}
  end.
Proof.
  intros Hget Hd0. unfold Handle.
  destruct (Destinations (spec b)) as [|d ds] eqn:Hds; [done|].
  injection Hd0 as ->.
  change (length (d0 :: ds) <=? 0)%nat with false. cbv iota.
  run. simpl w_ctx. rewrite Hget. simpl.
  destruct (muxMapper b d0) as [handler|]; simpl.
  - unfold invoke. simpl. destruct (handler (w_ctx w)) as [c r]. simpl.
    by rewrite <- !app_assoc.
  - by rewrite <- !app_assoc.
Qed.

(** [Get] returns a value that is no destination. *)
Lemma Handle_value_miss (b : Bridge) (w : World) :
  let dest := Get (req_header (ctx_request (w_ctx w))) bridgeDestHeader in
  Destinations (spec b) ≠ [] →
  dest ≠ "" →
  dest ∉ Destinations (spec b) →
  Handle b w =
  Ok resultDestinationNotFound
    {| w_ctx := with_status StatusServiceUnavailable (w_ctx w);
       w_trace := w_trace w ++
         [EvLog Errorf "dest not found: %s" [AString dest];
          EvSetStatusCode StatusServiceUnavailable] |}.
Proof.
  intros dest Hds Hne Hout. unfold Handle.
  destruct (Destinations (spec b)) as [|d ds] eqn:Heq; [done|].
  change (length (d :: ds) <=? 0)%nat with false. cbv iota.
  run. simpl w_ctx. fold dest. rewrite decide_False by done.
  rewrite scan_run. rewrite decide_False by done. simpl.
  by rewrite <- !app_assoc.
Qed.

(** [Get] returns a value that is a destination. *)
Lemma Handle_value_found (b : Bridge) (w : World) (d0 : string) :
  let dest := Get (req_header (ctx_request (w_ctx w))) bridgeDestHeader in
  let ctx1 := with_req_header
                (Del (req_header (ctx_request (w_ctx w))) bridgeDestHeader)
                (w_ctx w) in
  Destinations (spec b) !! 0%nat = Some d0 →
  dest ≠ "" →
  dest ∈ Destinations (spec b) →
  Handle b w =
  match muxMapper b dest with
  | Some handler =>
      Ok "" {| w_ctx := (handler ctx1).1;
               w_trace := w_trace w ++
                 [EvReqHeaderDel bridgeDestHeader; EvGetHandler dest;
                  EvHandle dest] |}
  | None =>
      Ok resultDestinationNotFound
        {| w_ctx := with_status StatusServiceUnavailable ctx1;
           w_trace := w_trace w ++
             [EvReqHeaderDel bridgeDestHeader; EvGetHandler dest;
              EvLog Errorf "failed to get running object %s" [AString d0];
              EvSetStatusCode StatusServiceUnavailable] |}
  end.
Proof.
  intros dest ctx1 Hd0 Hne Hin. unfold Handle.
  destruct (Destinations (spec b)) as [|d ds] eqn:Heq; [done|].
  injection Hd0 as ->.
  change (length (d0 :: ds) <=? 0)%nat with false. cbv iota.
  run. simpl w_ctx. fold dest. rewrite decide_False by done.
  rewrite scan_run. rewrite decide_True by done. simpl.
  destruct (muxMapper b dest) as [handler|]; simpl.
  - unfold invoke. simpl. fold ctx1. destruct (handler ctx1) as [c r]. simpl.
    by rewrite <- !app_assoc.
  - by rewrite <- !app_assoc.
Qed.

(** C5, as the code has it.  With destinations that start with [d0].
    When the request carries no signal header, [Handle] looks up the
    handler of [d0] and, when there is one, calls it on the context as it
    was received: no call changes a header of the request.  When the value
    of the signal header is not empty and is one of the destinations, the
    header is deleted from the request, the handler of that value is looked
    up and, when there is one, called on that same context, and [Handle]
    returns the empty string.  (Without a handler the answer is that of
    C6.) *)
Theorem Handle_routes (b : Bridge) (w : World) (d0 : string) :
  let h := req_header (ctx_request (w_ctx w)) in
  let ctx1 := with_req_header (Del h bridgeDestHeader) (w_ctx w) in
  Destinations (spec b) !! 0%nat = Some d0 →
  (Values h bridgeDestHeader = [] →
     Handle b w =
     match muxMapper b d0 with
     | Some handler =>
         Ok "" {| w_ctx := (handler (w_ctx w)).1;
                  w_trace := w_trace w ++
                    [EvLog Warnf
                       "destination not defined, will choose the first dest: %s"
                       [AString d0];
                     EvGetHandler d0; EvHandle d0] |}
     | None =>
         Ok resultDestinationNotFound
           {| w_ctx := with_status StatusServiceUnavailable (w_ctx w);
              w_trace := w_trace w ++
                [EvLog Warnf
                   "destination not defined, will choose the first dest: %s"
                   [AString d0];
                 EvGetHandler d0;
                 EvLog Errorf "failed to get running object %s" [AString d0];
                 EvSetStatusCode StatusServiceUnavailable] |}
     end)
  ∧ (∀ dest, Get h bridgeDestHeader = dest → dest ≠ "" →
       dest ∈ Destinations (spec b) →
       Values (req_header (ctx_request ctx1)) bridgeDestHeader = []
       ∧ Handle b w =
         match muxMapper b dest with
         | Some handler =>
             Ok "" {| w_ctx := (handler ctx1).1;
                      w_trace := w_trace w ++
                        [EvReqHeaderDel bridgeDestHeader; EvGetHandler dest;
                         EvHandle dest] |}
         | None =>
             Ok resultDestinationNotFound
               {| w_ctx := with_status StatusServiceUnavailable ctx1;
                  w_trace := w_trace w ++
                    [EvReqHeaderDel bridgeDestHeader; EvGetHandler dest;
                     EvLog Errorf "failed to get running object %s" [AString d0];
                     EvSetStatusCode StatusServiceUnavailable] |}
         end).
Proof.
  intros h ctx1 Hd0. subst h ctx1. split.
  - intros Habsent. apply Handle_default; [by apply Values_nil_Get | done].
  - intros dest Hget Hne Hin. split; [apply Values_Del|].
    subst dest. by apply Handle_value_found.
Qed.

(** C6, as the code has it.  [Handle] never returns
    [invokeDestinationFailed], whatever the handler returns.  With a
    destination or more: when the value of the signal header is not empty
    and is no destination, and also when the chosen destination (the first
    one for an empty value, the value itself otherwise) has no handler,
    [Handle] returns [destinationNotFound] with the status code 503 set and
    no handler called; the two cases give the same result and status. *)
Theorem Handle_not_found (b : Bridge) (w : World) :
  let dest := Get (req_header (ctx_request (w_ctx w))) bridgeDestHeader in
  (∀ r w', Handle b w = Ok r w' → r ≠ resultInvokeDestinationFailed)
  ∧ (Destinations (spec b) ≠ [] →
     ∀ chosen,
       dest ≠ "" ∧ dest ∉ Destinations (spec b)
       ∨ muxMapper b chosen = None
         ∧ (dest = "" ∧ Destinations (spec b) !! 0%nat = Some chosen
            ∨ dest ≠ "" ∧ dest ∈ Destinations (spec b) ∧ chosen = dest) →
       ∃ w' events,
         Handle b w = Ok resultDestinationNotFound w'
         ∧ resp_status (ctx_response (w_ctx w')) = StatusServiceUnavailable
         ∧ w_trace w' = w_trace w ++ events
         ∧ ∀ name, EvHandle name ∉ events).
Proof.
  intros dest. split.
  - intros r w' Hrun.
    destruct (Destinations (spec b)) as [|d0 ds] eqn:Hds.
    { by rewrite Handle_panic in Hrun. }
    destruct (decide (dest = "")) as [Hempty|Hne].
    + rewrite (Handle_default b w d0) in Hrun by (done || by rewrite Hds).
      destruct (muxMapper b d0); by injection Hrun as <- _.
    + destruct (decide (dest ∈ Destinations (spec b))) as [Hin|Hout].
      * rewrite (Handle_value_found b w d0) in Hrun by (done || by rewrite Hds).
        fold dest in Hrun. destruct (muxMapper b dest); by injection Hrun as <- _.
      * rewrite Handle_value_miss in Hrun by (done || by rewrite Hds).
        by injection Hrun as <- _.
  - intros Hds chosen [[Hne Hout]|[Hnone [[Hempty Hd0]|(Hne & Hin & ->)]]].
    + rewrite Handle_value_miss by done. do 2 eexists.
      split; [done|]. split; [done|]. split; [done|].
      intros name. not_listed.
    + rewrite (Handle_default b w chosen) by done. rewrite Hnone.
      do 2 eexists. split; [done|]. split; [done|]. split; [done|].
      intros name. not_listed.
    + destruct (Destinations (spec b)) as [|d0 ds] eqn:Heq; [done|].
      rewrite (Handle_value_found b w d0) by (done || by rewrite Heq).
      fold dest. rewrite Hnone.
      do 2 eexists. split; [done|]. split; [done|]. split; [done|].
      intros name. not_listed.
Qed.

(** C9. Without a destination [Handle] panics, whatever the request.  With
    a destination or more it does not panic: it returns the empty string or
    [destinationNotFound].  So a panic of [Handle] means that there is no
    destination. *)
Theorem Handle_panics_without_destination (b : Bridge) (w : World) :
  (Destinations (spec b) = [] →
     ∀ w0, Handle b w0 = Panic "not any destination defined")
  ∧ (Destinations (spec b) ≠ [] →
     ∃ r w', Handle b w = Ok r w' ∧ (r = "" ∨ r = resultDestinationNotFound))
  ∧ (∀ msg, Handle b w = Panic msg → Destinations (spec b) = []).
Proof.
  assert (Hret : Destinations (spec b) ≠ [] →
            ∃ r w', Handle b w = Ok r w' ∧ (r = "" ∨ r = resultDestinationNotFound)).
  { intros Hds.
    destruct (Destinations (spec b)) as [|d0 ds] eqn:Heq; [done|].
    set (dest := Get (req_header (ctx_request (w_ctx w))) bridgeDestHeader).
    destruct (decide (dest = "")) as [Hempty|Hne].
    - rewrite (Handle_default b w d0) by (done || by rewrite Heq).
      destruct (muxMapper b d0); do 2 eexists; (split; [done|]); by auto.
    - destruct (decide (dest ∈ Destinations (spec b))) as [Hin|Hout].
      + rewrite (Handle_value_found b w d0) by (done || by rewrite Heq).
        fold dest. destruct (muxMapper b dest); do 2 eexists;
          (split; [done|]); by auto.
      + rewrite Handle_value_miss by (done || by rewrite Heq).
        do 2 eexists. split; [done|]. by right. }
  split; [|split].
  - intros Hds w0. by apply Handle_panic.
  - done.
  - intros msg Hpanic.
    destruct (decide (Destinations (spec b) = [])) as [|Hds]; [done|].
    destruct (Hret Hds) as (r & w' & Hrun & _). congruence.
Qed.

(** C10. A signal header that is present with the empty string as its
    (first) value is handled as a missing one.  [Handle] takes the first
    destination and looks up its handler; it does not delete the header,
    which the handler still sees; it does not report that the value was not
    found, whether the empty string is a destination or not.  On the same
    request without the header, [Handle] returns the same result after the
    same calls. *)
Theorem Handle_empty_value_as_absent (b : Bridge) (w : World) (d0 : string)
    (values : list string) :
  let h := req_header (ctx_request (w_ctx w)) in
  let absent := {| w_ctx := with_req_header (Del h bridgeDestHeader) (w_ctx w);
                   w_trace := w_trace w |} in
  Destinations (spec b) !! 0%nat = Some d0 →
  h !! canonicalKey bridgeDestHeader = Some ("" :: values) →
  Handle b w =
    match muxMapper b d0 with
    | Some handler =>
        Ok "" {| w_ctx := (handler (w_ctx w)).1;
                 w_trace := w_trace w ++
                   [EvLog Warnf
                      "destination not defined, will choose the first dest: %s"
                      [AString d0];
                    EvGetHandler d0; EvHandle d0] |}
    | None =>
        Ok resultDestinationNotFound
          {| w_ctx := with_status StatusServiceUnavailable (w_ctx w);
             w_trace := w_trace w ++
               [EvLog Warnf
                  "destination not defined, will choose the first dest: %s"
                  [AString d0];
                EvGetHandler d0;
                EvLog Errorf "failed to get running object %s" [AString d0];
                EvSetStatusCode StatusServiceUnavailable] |}
    end
  ∧ ∃ r w' wa events,
      Handle b w = Ok r w' ∧ Handle b absent = Ok r wa
      ∧ w_trace w' = w_trace w ++ events
      ∧ w_trace wa = w_trace w ++ events
      ∧ EvGetHandler d0 ∈ events
      ∧ (∀ key, EvReqHeaderDel key ∉ events)
      ∧ (∀ args, EvLog Errorf "dest not found: %s" args ∉ events)
      ∧ (is_Some (muxMapper b d0) → r = "")
      ∧ (muxMapper b d0 = None →
           req_header (ctx_request (w_ctx w')) = h
           ∧ resp_status (ctx_response (w_ctx w')) = resp_status (ctx_response (w_ctx wa))).
Proof.
  intros h absent Hd0 Hpresent.
  assert (Hget : Get h bridgeDestHeader = "").
  { unfold Get, Values. by rewrite Hpresent. }
  assert (Hgeta : Get (req_header (ctx_request (w_ctx absent))) bridgeDestHeader = "").
  { apply Values_nil_Get. simpl. apply Values_Del. }
  split; [by apply Handle_default|].
  rewrite (Handle_default b w d0), (Handle_default b absent d0) by done.
  destruct (muxMapper b d0) as [handler|].
  - do 4 eexists. split; [done|]. split; [done|]. split; [done|].
    split; [done|]. split; [by right; left|].
    split; [intros key; not_listed|]. split; [intros args; not_listed|].
    split; [done|]. done.
  - do 4 eexists. split; [done|]. split; [done|]. split; [done|].
    split; [done|]. split; [by right; left|].
    split; [intros key; not_listed|]. split; [intros args; not_listed|].
    split; [by intros [? ?]|]. done.
Qed.

End Facts.

End BridgeRoute.

(** ** The properties on concrete requests *)

Module Checks.
Import Http Effect Examples.

(** A request for [/a] matches a rule with the path [/a]; a request for
    [/a/b] matches a rule with the prefix [/a] and not a rule with the path
    [/a]; a rule with neither matches any path. *)
Example matchPath_examples :
  Mock.matchPath "/a" (rule (matchRule "/a" "" ∅ false) 200 "" 0) = true
  ∧ Mock.matchPath "/a/b" (rule (matchRule "" "/a" ∅ false) 200 "" 0) = true
  ∧ Mock.matchPath "/a/b" (rule (matchRule "/a" "" ∅ false) 200 "" 0) = false
  ∧ Mock.matchPath "/any" (rule (matchRule "" "" ∅ false) 200 "" 0) = true.
Proof. by vm_compute. Qed.

(** Two header rules of which the request satisfies one: the rule matches
    without [matchAllHeaders] and does not match with it, in either order
    of the visit. *)
Example matchHeader_examples :
  let headers : gmap string Mock.StringMatch :=
    {[ "A" := exact "1"; "B" := exact "2" ]} in
  let request : Header := {[ "A" := ["0"; "1"] ]} in
  @Mock.matchHeader plainRuntime request (rule (matchRule "" "" headers false) 200 "" 0) = true
  ∧ @Mock.matchHeader reverseRuntime request (rule (matchRule "" "" headers false) 200 "" 0) = true
  ∧ @Mock.matchHeader plainRuntime request (rule (matchRule "" "" headers true) 200 "" 0) = false
  ∧ @Mock.matchHeader reverseRuntime request (rule (matchRule "" "" headers true) 200 "" 0) = false.
Proof. by vm_compute. Qed.

(** A header rule that matches an absent header is satisfied by a request
    without the header and by no request with it. *)
Example matchOneHeader_examples :
  @Mock.matchOneHeader plainRuntime ∅ "A" whenAbsent = true
  ∧ @Mock.matchOneHeader plainRuntime {[ "A" := ["1"] ]} "A" whenAbsent = false
  ∧ @Mock.matchOneHeader plainRuntime {[ "A" := [""] ]} "A" whenAbsent = false.
Proof. by vm_compute. Qed.

(** Of two rules that match, the first is returned. *)
Example match_examples :
  let first := rule (matchRule "" "/a" ∅ false) 201 "" 0 in
  let second := rule (matchRule "/a/b" "" ∅ false) 202 "" 0 in
  @Mock.match_ plainRuntime {| Mock.spec := {| Mock.Rules := [first; second] |} |}
    (request "/a/b" ∅) = Some first
  ∧ @Mock.match_ plainRuntime {| Mock.spec := {| Mock.Rules := [second; first] |} |}
    (request "/a/b" ∅) = Some second
  ∧ @Mock.match_ plainRuntime {| Mock.spec := {| Mock.Rules := [first; second] |} |}
    (request "/b" ∅) = None.
Proof. by vm_compute. Qed.

(** A rule with the code 201, the header [X: v], the body [hi] and a delay
    of 100ms, applied to a request that is cancelled during the delay. *)
Example mock_examples :
  let r := rule (matchRule "" "" ∅ false) 201 "100ms" 100000000 in
  ∃ w', @Mock.Handle plainRuntime DoneFired
          {| Mock.spec := {| Mock.Rules := [r] |} |} (world "/a" ∅) = Ok "mocked" w'
    ∧ resp_status (ctx_response (w_ctx w')) = 201%Z
    ∧ @Values plainRuntime (resp_header (ctx_response (w_ctx w'))) "X" = ["v"]
    ∧ resp_payload (ctx_response (w_ctx w')) = "hi"
    ∧ w_trace w' =
        [EvSetStatusCode 201; EvRespHeaderSet "X" "v"; EvSetReader "hi";
         EvLog Debugf "delay for %v ..." [ADuration 100000000];
         EvSelect 100000000 DoneFired;
         EvLog Debugf "request cancelled in the middle of delay mocking" []].
Proof. eexists. split; [by vm_compute|]. by vm_compute. Qed.

(** The destinations [a] and [b], of which the registry knows [b]. *)
Example Handle_examples :
  (∃ w', @Bridge.Handle plainRuntime (bridge mapperAll) (world "/" ∅) = Ok "" w'
     ∧ w_trace w' =
         [EvLog Warnf "destination not defined, will choose the first dest: %s"
            [AString "a"];
          EvGetHandler "a"; EvHandle "a"])
  ∧ (∃ w', @Bridge.Handle plainRuntime (bridge mapperB) (world "/" (signal "b")) = Ok "" w'
     ∧ req_header (ctx_request (w_ctx w')) = ∅
     ∧ w_trace w' =
         [EvReqHeaderDel Bridge.bridgeDestHeader; EvGetHandler "b"; EvHandle "b"])
  ∧ (∃ w', @Bridge.Handle plainRuntime (bridge mapperB) (world "/" (signal "c"))
           = Ok "destinationNotFound" w'
     ∧ resp_status (ctx_response (w_ctx w')) = 503%Z
     ∧ w_trace w' =
         [EvLog Errorf "dest not found: %s" [AString "c"]; EvSetStatusCode 503])
  ∧ (∃ w', @Bridge.Handle plainRuntime (bridge mapperB) (world "/" (signal "a"))
           = Ok "destinationNotFound" w'
     ∧ resp_status (ctx_response (w_ctx w')) = 503%Z
     ∧ w_trace w' =
         [EvReqHeaderDel Bridge.bridgeDestHeader; EvGetHandler "a";
          EvLog Errorf "failed to get running object %s" [AString "a"];
          EvSetStatusCode 503]).
Proof.
  repeat split; eexists; (split; [by vm_compute|]); by vm_compute.
Qed.

(** C6 as it is stated does not hold.  The request carries the signal
    header with the empty string as its value, and the empty string is no
    destination: [Handle] takes the first destination and calls its handler
    instead of answering [destinationNotFound] with the status 503. *)
Lemma Handle_empty_value_dispatches :
  let b := bridge mapperAll in
  let w := world "/" (signal "") in
  let h := req_header (ctx_request (w_ctx w)) in
  ¬ (Bridge.Destinations (Bridge.spec b) ≠ [] →
     is_Some (h !! Bridge.bridgeDestHeader) →
     @Get plainRuntime h Bridge.bridgeDestHeader ∉ Bridge.Destinations (Bridge.spec b) →
     ∃ w', @Bridge.Handle plainRuntime b w = Ok Bridge.resultDestinationNotFound w'
           ∧ resp_status (ctx_response (w_ctx w')) = StatusServiceUnavailable).
Proof.
  intros b w h Hclaim. destruct Hclaim as (w' & Hrun & _).
  - done.
  - by exists [""].
  - intros Hin. apply list_elem_of_In in Hin. vm_compute in Hin.
    by destruct Hin as [?|[?|[]]].
  - vm_compute in Hrun. discriminate Hrun.
Qed.

(** C5 as it is stated does not hold.  The empty string is among the
    destinations and the request carries the signal header with the empty
    string as its value, so the value equals a destination: [Handle] does
    not delete the header and takes the first destination, not the value. *)
Lemma Handle_empty_destination_not_chosen :
  let b := {| Bridge.spec := {| Bridge.Destinations := ["a"; ""] |};
              Bridge.muxMapper := mapperAll |} in
  let w := world "/" (signal "") in
  let h := req_header (ctx_request (w_ctx w)) in
  let dest := @Get plainRuntime h Bridge.bridgeDestHeader in
  ¬ (Bridge.Destinations (Bridge.spec b) ≠ [] →
     is_Some (h !! Bridge.bridgeDestHeader) →
     dest ∈ Bridge.Destinations (Bridge.spec b) →
     ∃ w', @Bridge.Handle plainRuntime b w = Ok "" w'
           ∧ EvReqHeaderDel Bridge.bridgeDestHeader ∈ w_trace w'
           ∧ EvGetHandler dest ∈ w_trace w').
Proof.
  intros b w h dest Hclaim. destruct Hclaim as (w' & Hrun & Hdel & _).
  - done.
  - by exists [""].
  - by right; left.
  - vm_compute in Hrun. injection Hrun as <-. simpl in Hdel.
    revert Hdel. not_listed.
Qed.

(** [Handle_routes] on the request that names [b]. *)
Lemma Handle_routes_witness :
  ∃ w', @Bridge.Handle plainRuntime (bridge mapperB) (world "/" (signal "b")) = Ok "" w'
    ∧ resp_payload (ctx_response (w_ctx w')) = "echo"
    ∧ @Values plainRuntime (req_header (ctx_request (w_ctx w'))) Bridge.bridgeDestHeader = []
    ∧ w_trace w' =
        [EvReqHeaderDel Bridge.bridgeDestHeader; EvGetHandler "b"; EvHandle "b"].
Proof.
  destruct (@BridgeRoute.Handle_routes plainRuntime (bridge mapperB)
              (world "/" (signal "b")) "a" eq_refl) as [_ Hfound].
  destruct (Hfound "b" eq_refl) as [_ Hcall].
  { done. }
  { by right; left. }
  rewrite Hcall. eexists. split; [reflexivity|]. by vm_compute.
Defined.

(** [invalid_delay_is_zero] on a rule whose delay text is [soon]. *)
Lemma invalid_delay_is_zero_witness :
  let r := rule (matchRule "" "" ∅ false) 201 "soon" 0 in
  ∃ r', Mock.Rules (Mock.spec (Mock.Init parseToy {| Mock.Rules := [r] |})) !! 0%nat
        = Some r'
    ∧ Mock.r_delay r' = 0%Z.
Proof.
  intros r.
  assert (Hzero : ∀ text err, (parseToy text).2 = Some err → (parseToy text).1 = 0%Z).
  { intros text err. unfold parseToy. by destruct (String.eqb text "100ms"). }
  destruct (@MockRespond.invalid_delay_is_zero plainRuntime parseToy
              {| Mock.Rules := [r] |} 0%nat r Hzero eq_refl eq_refl)
    as (r' & Hlookup & _ & _ & _ & _ & _ & _ & _ & Hinvalid).
  exists r'. split; [done|].
  by destruct (Hinvalid "time: invalid duration" eq_refl).
Defined.

(** [Handle_empty_value_as_absent] on a request whose signal header is
    empty. *)
Lemma Handle_empty_value_as_absent_witness :
  ∃ w', @Bridge.Handle plainRuntime (bridge mapperAll) (world "/" (signal "")) = Ok "" w'
    ∧ req_header (ctx_request (w_ctx w')) = signal ""
    ∧ w_trace w' =
        [EvLog Warnf "destination not defined, will choose the first dest: %s"
           [AString "a"];
         EvGetHandler "a"; EvHandle "a"].
Proof.
  destruct (@BridgeRoute.Handle_empty_value_as_absent plainRuntime (bridge mapperAll)
              (world "/" (signal "")) "a" [] eq_refl eq_refl) as [Hrun _].
  eexists. split; [exact Hrun|]. by vm_compute.
Defined.

End Checks.

(** * Further properties *)

(** ** More on [Mock] *)

Module MockMore.
Import Http Effect Mock.

Section Facts.
Context `{!Runtime}.

(** X1. [Handle] of [Mock] always returns, with the empty string or a
    declared result.  It returns [mocked] exactly when some rule passes
    both tests for the request; otherwise it returns the empty string and
    has made no call at all.  It never changes the request. *)
Theorem Handle_mocked_iff (fired : SelectCase) (m : Mock) (w : World) :
  ∃ r w',
    Handle fired m w = Ok r w'
    ∧ (r = "" ∨ r ∈ Results)
    ∧ (r = resultMocked ↔ ∃ rule, rule ∈ Rules (spec m) ∧ passes (w_ctx w) rule)
    ∧ (r = "" → w' = w)
    ∧ ctx_request (w_ctx w') = ctx_request (w_ctx w).
Proof.
  unfold Handle. run. simpl w_ctx.
  destruct (match_ m (w_ctx w)) as [rule|] eqn:Hm.
  - rewrite MockRespond.mock_run. do 2 eexists. split; [done|].
    split; [right; by left|]. split; [|done].
    split; [intros _|done].
    apply MockMatch.matchLoop_Some in Hm as (before & after & Heq & Hpass & _).
    exists rule. split; [|done]. rewrite Heq. set_solver.
  - do 2 eexists. split; [done|]. split; [by left|].
    split; [|done]. split; [done|].
    intros (rule & Hin & Hpass). exfalso.
    apply MockMatch.matchLoop_None in Hm. rewrite Forall_forall in Hm.
    by apply (Hm rule).
Qed.

Lemma matchOneHeader_Values (h1 h2 : Header) (key : string) (r : StringMatch) :
  Values h1 key = Values h2 key →
  matchOneHeader h1 key r = matchOneHeader h2 key r.
Proof. unfold matchOneHeader. by intros ->. Qed.

Lemma matchHeaderLoop_Values (h1 h2 : Header) (all : bool)
    (kvs : list (string * StringMatch)) :
  (∀ key r, (key, r) ∈ kvs → Values h1 key = Values h2 key) →
  matchHeaderLoop h1 all kvs = matchHeaderLoop h2 all kvs.
Proof.
  induction kvs as [|[key r] kvs IH]; intros Hsame; simpl; [done|].
  rewrite (matchOneHeader_Values h1 h2 key r) by (apply (Hsame key r); by left).
  rewrite IH; [done|]. intros key' r' Hin. apply (Hsame key' r'). by right.
Qed.

(** X2. [match] reads the path of the request and the values of the
    headers that the rules name, and nothing else: two contexts with the
    same path that carry the same values under every header name of every
    rule get the same rule, whatever their other headers and their
    responses. *)
Theorem match_reads_named_headers (m : Mock) (c1 c2 : Context) :
  req_path (ctx_request c1) = req_path (ctx_request c2) →
  (∀ rule key, rule ∈ Rules (spec m) →
     is_Some (mr_Headers (r_Match rule) !! key) →
     Values (req_header (ctx_request c1)) key
     = Values (req_header (ctx_request c2)) key) →
  match_ m c1 = match_ m c2.
Proof.
  intros Hpath Hsame. unfold match_. rewrite Hpath.
  induction (Rules (spec m)) as [|rule rules IH]; simpl; [done|].
  assert (Hh : matchHeader (req_header (ctx_request c1)) rule
             = matchHeader (req_header (ctx_request c2)) rule).
  { unfold matchHeader.
    destruct (size (mr_Headers (r_Match rule)) =? 0)%nat; [done|].
    apply matchHeaderLoop_Values. intros key r Hin.
    apply (Hsame rule key); [by left|].
    apply elem_of_rangeOrder in Hin. by eexists. }
  rewrite Hh. rewrite IH; [done|].
  intros rule' key Hin. apply Hsame. by right.
Qed.

(** X3. Rules added after the configured ones only serve the requests that
    matched none of them: on the longer list [match] returns what it
    returned on the shorter one, and looks at the added rules only when that
    was nil. *)
Theorem match_append (rules more : list Rule) (ctx : Context) :
  match_ {| spec := {| Rules := rules ++ more |} |} ctx =
  match match_ {| spec := {| Rules := rules |} |} ctx with
  | Some rule => Some rule
  | None => match_ {| spec := {| Rules := more |} |} ctx
  end.
Proof.
  unfold match_. simpl.
  induction rules as [|r rules IH]; simpl; [done|].
  by destruct (matchPath (req_path (ctx_request ctx)) r
               && matchHeader (req_header (ctx_request ctx)) r).
Qed.

(** X4. A rule without a path, a prefix and header rules passes for every
    request.  With such a rule at position [i], [match] returns a rule at
    [i] or before, and [Handle] answers [mocked], for every request. *)
Theorem catch_all_rule (fired : SelectCase) (m : Mock) (i : nat) (rule : Rule)
    (w : World) :
  Rules (spec m) !! i = Some rule →
  mr_Path (r_Match rule) = "" →
  mr_PathPrefix (r_Match rule) = "" →
  mr_Headers (r_Match rule) = ∅ →
  (∃ k rk, (k ≤ i)%nat ∧ Rules (spec m) !! k = Some rk
           ∧ match_ m (w_ctx w) = Some rk)
  ∧ ∃ w', Handle fired m w = Ok resultMocked w'.
Proof.
  intros Hi Hp Hpp Hh.
  assert (Hpass : matchPath (req_path (ctx_request (w_ctx w))) rule
                  && matchHeader (req_header (ctx_request (w_ctx w))) rule = true).
  { unfold matchPath, matchHeader. rewrite Hp, Hpp, Hh.
    rewrite decide_True by done. by rewrite map_size_empty. }
  assert (Hm : ∃ k rk, (k ≤ i)%nat ∧ Rules (spec m) !! k = Some rk
                 ∧ match_ m (w_ctx w) = Some rk).
  { unfold match_.
    destruct (matchLoop (req_path (ctx_request (w_ctx w)))
                (req_header (ctx_request (w_ctx w))) (Rules (spec m)))
      as [rk|] eqn:Hm.
    - apply MockMatch.matchLoop_Some in Hm as (before & after & Heq & _ & Hbefore).
      exists (length before), rk. split; [|split; [|done]].
      + destruct (decide (length before ≤ i)%nat) as [|Hgt]; [done|]. exfalso.
        rewrite Heq, lookup_app_l in Hi by lia.
        rewrite Forall_lookup in Hbefore. by apply (Hbefore i rule).
      + rewrite Heq. by rewrite list_lookup_middle.
    - apply MockMatch.matchLoop_None in Hm. rewrite Forall_lookup in Hm.
      exfalso. by apply (Hm i rule). }
  split; [done|]. destruct Hm as (k & rk & _ & _ & Hm).
  unfold Handle. run. simpl w_ctx. rewrite Hm, MockRespond.mock_run. by eexists.
Qed.

End Facts.

Section Reload.
Context `{!Runtime}.
Variable ParseDuration : string → Z * option string.

Lemma reloadRule_twice (r : Rule) :
  reloadRule ParseDuration (reloadRule ParseDuration r) = reloadRule ParseDuration r.
Proof.
  unfold reloadRule. destruct (decide (r_Delay r = "")) as [He|Hne].
  - by rewrite decide_True.
  - simpl. by rewrite decide_False.
Qed.

(** X5. Loading is idempotent: [reload] after [reload] leaves the rules as
    the first one left them, so a filter that is loaded again from the same
    rules does not change.  [reload] keeps the number of rules. *)
Theorem reload_idempotent (m : Mock) :
  reload ParseDuration (reload ParseDuration m) = reload ParseDuration m
  ∧ length (Rules (spec (reload ParseDuration m))) = length (Rules (spec m)).
Proof.
  unfold reload. simpl. split; [|by rewrite length_fmap].
  do 2 f_equal. rewrite <- list_fmap_compose.
  apply list_fmap_ext. intros i r _. simpl. apply reloadRule_twice.
Qed.

Lemma reloadRule_Match (r : Rule) :
  r_Match (reloadRule ParseDuration r) = r_Match r.
Proof. unfold reloadRule. by destruct (decide (r_Delay r = "")). Qed.

(** X6. Loading the delays does not change which rule matches: on the
    loaded rules [match] returns the loaded form of the rule that it
    returns on the rules as configured, and nil when that is nil. *)
Theorem match_reload (m : Mock) (ctx : Context) :
  match_ (reload ParseDuration m) ctx = reloadRule ParseDuration <$> match_ m ctx.
Proof.
  unfold match_, reload. simpl.
  induction (Rules (spec m)) as [|r rules IH]; simpl; [done|].
  assert (Hp : matchPath (req_path (ctx_request ctx)) (reloadRule ParseDuration r)
             = matchPath (req_path (ctx_request ctx)) r).
  { unfold matchPath. by rewrite reloadRule_Match. }
  assert (Hh : matchHeader (req_header (ctx_request ctx)) (reloadRule ParseDuration r)
             = matchHeader (req_header (ctx_request ctx)) r).
  { unfold matchHeader. by rewrite reloadRule_Match. }
  rewrite Hp, Hh.
  by destruct (matchPath (req_path (ctx_request ctx)) r
               && matchHeader (req_header (ctx_request ctx)) r).
Qed.

End Reload.

End MockMore.

(** ** The headers that [mock] writes *)

Module MockOrder.
Import Http Effect Mock.

Section Frame.
Context `{!Runtime}.

(** X7. [mock] changes, among the headers of the response, only those
    that the rule names: a header whose name is the canonical form of no
    configured name keeps the values it had, and a rule without headers
    leaves the headers of the response as they were. *)
Theorem mock_keeps_other_headers (fired : SelectCase) (rule : Rule) (w : World) :
  ∃ w',
    mock fired rule w = Ok tt w'
    ∧ (∀ k, (∀ key, is_Some (r_Headers rule !! key) → canonicalKey key ≠ k) →
         resp_header (ctx_response (w_ctx w')) !! k
         = resp_header (ctx_response (w_ctx w)) !! k)
    ∧ (r_Headers rule = ∅ →
         resp_header (ctx_response (w_ctx w')) = resp_header (ctx_response (w_ctx w))).
Proof.
  eexists. split; [apply MockRespond.mock_run|]. simpl. split.
  - intros k Hother. apply MockRespond.foldl_Set_other.
    intros [key value] Hin. apply elem_of_rangeOrder in Hin.
    apply Hother. by eexists.
  - intros Hempty. apply map_eq. intros k. apply MockRespond.foldl_Set_other.
    intros [key value] Hin. apply elem_of_rangeOrder in Hin.
    rewrite Hempty in Hin. by rewrite lookup_empty in Hin.
Qed.

(** The header after the [Set] calls of a rule whose names have distinct
    canonical forms. *)
Lemma foldl_Set_distinct (m : gmap string string) (h : Header) (k : string) :
  (∀ k1 k2, is_Some (m !! k1) → is_Some (m !! k2) →
     canonicalKey k1 = canonicalKey k2 → k1 = k2) →
  (∀ key value, m !! key = Some value → canonicalKey key = k →
     foldl (λ h kv, Set_ h kv.1 kv.2) h (rangeOrder m) !! k = Some [value])
  ∧ ((∀ key, is_Some (m !! key) → canonicalKey key ≠ k) →
     foldl (λ h kv, Set_ h kv.1 kv.2) h (rangeOrder m) !! k = h !! k).
Proof.
  intros Hdistinct. split.
  - intros key value Hkey Hk.
    destruct (MockRespond.foldl_Set_named (rangeOrder m) h k)
      as ([key' value'] & Hin & Hk' & Hl).
    { exists (key, value). split; [by apply elem_of_rangeOrder | done]. }
    apply elem_of_rangeOrder in Hin. simpl in *.
    assert (key' = key) as ->.
    { apply Hdistinct; [by eexists | by eexists | congruence]. }
    congruence.
  - intros Hother. apply MockRespond.foldl_Set_other.
    intros [key value] Hin. apply elem_of_rangeOrder in Hin.
    apply Hother. by eexists.
Qed.

End Frame.

(** X8. For a rule whose header names have distinct canonical forms, the
    context that [mock] leaves does not depend on the order in which the
    runtime visits the headers, nor on the case of the wait.  Applying the
    rule a second time changes nothing in the context. *)
Theorem mock_order_irrelevant (R1 R2 : Runtime) (fired1 fired2 : SelectCase)
    (rule : Rule) (w : World) :
  @canonicalKey R1 = @canonicalKey R2 →
  (∀ k1 k2, is_Some (r_Headers rule !! k1) → is_Some (r_Headers rule !! k2) →
     @canonicalKey R1 k1 = @canonicalKey R1 k2 → k1 = k2) →
  ∃ w1 w2 w12,
    @mock R1 fired1 rule w = Ok tt w1
    ∧ @mock R2 fired2 rule w = Ok tt w2
    ∧ w_ctx w1 = w_ctx w2
    ∧ @mock R2 fired2 rule w1 = Ok tt w12
    ∧ w_ctx w12 = w_ctx w1.
Proof.
  intros Hcanon Hd1.
  assert (Hd2 : ∀ k1 k2, is_Some (r_Headers rule !! k1) → is_Some (r_Headers rule !! k2) →
            @canonicalKey R2 k1 = @canonicalKey R2 k2 → k1 = k2).
  { by rewrite <- Hcanon. }
  assert (Hsame : ∀ h h' : Header,
            (∀ k, (∀ key, is_Some (r_Headers rule !! key) → @canonicalKey R1 key ≠ k) →
                  h !! k = h' !! k) →
            foldl (λ h kv, @Set_ R1 h kv.1 kv.2) h (@rangeOrder R1 _ (r_Headers rule))
            = foldl (λ h kv, @Set_ R2 h kv.1 kv.2) h' (@rangeOrder R2 _ (r_Headers rule))).
  { intros h h' Hh. apply map_eq. intros k.
    destruct (@foldl_Set_distinct R1 (r_Headers rule) h k Hd1) as [Hn1 Ho1].
    destruct (@foldl_Set_distinct R2 (r_Headers rule) h' k Hd2) as [Hn2 Ho2].
    destruct (decide (Exists (λ kv, @canonicalKey R1 kv.1 = k)
                        (map_to_list (r_Headers rule)))) as [Hex|Hno].
    - apply Exists_exists in Hex as ([key value] & Hin & Hk).
      apply elem_of_map_to_list in Hin. simpl in Hk.
      rewrite (Hn1 key value) by done.
      rewrite (Hn2 key value); [done | done | by rewrite <- Hcanon].
    - assert (Hother : ∀ key, is_Some (r_Headers rule !! key) → @canonicalKey R1 key ≠ k).
      { intros key [value Hkey] Hk. apply Hno, Exists_exists.
        exists (key, value). split; [by apply elem_of_map_to_list | done]. }
      rewrite Ho1 by done. rewrite Ho2 by (by rewrite <- Hcanon).
      by apply Hh. }
  do 3 eexists. split; [apply (@MockRespond.mock_run R1)|].
  split; [apply (@MockRespond.mock_run R2)|].
  split.
  { simpl. unfold with_payload, with_resp_header, with_status. simpl.
    by rewrite (Hsame _ (resp_header (ctx_response (w_ctx w)))). }
  split; [apply (@MockRespond.mock_run R2)|].
  simpl. unfold with_payload, with_resp_header, with_status. simpl.
  f_equal. f_equal. symmetry. apply Hsame.
  intros k Hother.
  destruct (@foldl_Set_distinct R1 (r_Headers rule)
              (resp_header (ctx_response (w_ctx w))) k Hd1) as [_ Ho1].
  by rewrite Ho1.
Qed.

End MockOrder.

(** ** More on [Bridge] *)

Module BridgeMore.
Import Http Effect Bridge.

Section Facts.
Context `{!Runtime}.

Lemma Del_other (h : Header) (key k : string) :
  k ≠ canonicalKey key → Del h key !! k = h !! k.
Proof. intros Hne. unfold Del. by apply lookup_delete_ne. Qed.

(** X9. When [Handle] returns the empty string it has called one handler,
    the one registered under a name that is among the destinations.  The
    context it passed to the handler is the one it received, but for the
    signal header: the response, the path and the other headers of the
    request are as received. *)
Theorem Handle_dispatches_to_destination (b : Bridge) (w w' : World) :
  Handle b w = Ok "" w' →
  ∃ name handler c events,
    name ∈ Destinations (spec b)
    ∧ muxMapper b name = Some handler
    ∧ w_ctx w' = (handler c).1
    ∧ ctx_response c = ctx_response (w_ctx w)
    ∧ req_path (ctx_request c) = req_path (ctx_request (w_ctx w))
    ∧ (∀ k, k ≠ canonicalKey bridgeDestHeader →
         req_header (ctx_request c) !! k = req_header (ctx_request (w_ctx w)) !! k)
    ∧ w_trace w' = w_trace w ++ events ++ [EvGetHandler name; EvHandle name]
    ∧ ∀ n, EvHandle n ∉ events.
Proof.
  intros Hrun.
  destruct (Destinations (spec b)) as [|d0 ds] eqn:Hds.
  { by rewrite BridgeRoute.Handle_panic in Hrun. }
  set (dest := Get (req_header (ctx_request (w_ctx w))) bridgeDestHeader) in *.
  destruct (decide (dest = "")) as [Hempty|Hne].
  - rewrite (BridgeRoute.Handle_default b w d0) in Hrun by (done || by rewrite Hds).
    destruct (muxMapper b d0) as [handler|] eqn:Hh; [|done].
    injection Hrun as <-.
    exists d0, handler, (w_ctx w), [EvLog Warnf
      "destination not defined, will choose the first dest: %s" [AString d0]].
    split; [by left|]. repeat (split; [done|]).
    intros n. not_listed.
  - destruct (decide (dest ∈ Destinations (spec b))) as [Hin|Hout].
    + rewrite (BridgeRoute.Handle_value_found b w d0) in Hrun by (done || by rewrite Hds).
      fold dest in Hrun. destruct (muxMapper b dest) as [handler|] eqn:Hh; [|done].
      injection Hrun as <-.
      exists dest, handler,
        (with_req_header (Del (req_header (ctx_request (w_ctx w))) bridgeDestHeader)
           (w_ctx w)), [EvReqHeaderDel bridgeDestHeader].
      split; [by rewrite <- Hds|]. repeat (split; [done|]).
      split; [intros k Hk; by apply Del_other|]. split; [done|].
      intros n. not_listed.
    + rewrite BridgeRoute.Handle_value_miss in Hrun by (done || by rewrite Hds).
      done.
Qed.

(** X10. What becomes of the signal header when [Handle] answers
    [destinationNotFound] for a value that is not empty.  A value that is no
    destination leaves the request as it was received.  A value that is a
    destination without a handler has been taken off the request all the
    same.  In both cases the response changes in its status code only. *)
Theorem Handle_not_found_request (b : Bridge) (w : World) :
  let h := req_header (ctx_request (w_ctx w)) in
  let dest := Get h bridgeDestHeader in
  Destinations (spec b) ≠ [] →
  dest ≠ "" →
  (dest ∉ Destinations (spec b) →
     ∃ w', Handle b w = Ok resultDestinationNotFound w'
       ∧ w_ctx w' = with_status StatusServiceUnavailable (w_ctx w))
  ∧ (dest ∈ Destinations (spec b) → muxMapper b dest = None →
     ∃ w', Handle b w = Ok resultDestinationNotFound w'
       ∧ Values (req_header (ctx_request (w_ctx w'))) bridgeDestHeader = []
       ∧ (∀ k, k ≠ canonicalKey bridgeDestHeader →
            req_header (ctx_request (w_ctx w')) !! k = h !! k)
       ∧ req_path (ctx_request (w_ctx w')) = req_path (ctx_request (w_ctx w))
       ∧ resp_header (ctx_response (w_ctx w')) = resp_header (ctx_response (w_ctx w))
       ∧ resp_payload (ctx_response (w_ctx w')) = resp_payload (ctx_response (w_ctx w))).
Proof.
  intros h dest Hds Hne. split.
  - intros Hout. rewrite BridgeRoute.Handle_value_miss by done. by eexists.
  - intros Hin Hnone.
    destruct (Destinations (spec b)) as [|d0 ds] eqn:Heq; [done|].
    rewrite (BridgeRoute.Handle_value_found b w d0) by (done || by rewrite Heq).
    fold h dest. rewrite Hnone. eexists. split; [done|]. simpl.
    split; [apply BridgeRoute.Values_Del|].
    split; [intros k Hk; by apply Del_other|]. done.
Qed.

(** X11. [Handle] uses the list of destinations through its first element
    and through the names it contains: two lists with the same first element
    and the same elements, in whatever order and number, give the same run
    for every request and registry. *)
Theorem Handle_destinations_as_set (mapper : MuxMapper) (ds1 ds2 : list string)
    (w : World) :
  head ds1 = head ds2 →
  (∀ d, d ∈ ds1 ↔ d ∈ ds2) →
  Handle {| spec := {| Destinations := ds1 |}; muxMapper := mapper |} w
  = Handle {| spec := {| Destinations := ds2 |}; muxMapper := mapper |} w.
Proof.
  intros Hhead Hsame.
  destruct ds1 as [|d0 ds1], ds2 as [|d0' ds2]; try done.
  injection Hhead as <-.
  set (b1 := {| spec := {| Destinations := d0 :: ds1 |}; muxMapper := mapper |}).
  set (b2 := {| spec := {| Destinations := d0 :: ds2 |}; muxMapper := mapper |}).
  set (dest := Get (req_header (ctx_request (w_ctx w))) bridgeDestHeader).
  destruct (decide (dest = "")) as [Hempty|Hne].
  - by rewrite (BridgeRoute.Handle_default b1 w d0), (BridgeRoute.Handle_default b2 w d0).
  - destruct (decide (dest ∈ d0 :: ds1)) as [Hin|Hout].
    + rewrite (BridgeRoute.Handle_value_found b1 w d0) by done.
      rewrite (BridgeRoute.Handle_value_found b2 w d0); [done | done | done |].
      by apply Hsame.
    + rewrite (BridgeRoute.Handle_value_miss b1 w) by done.
      rewrite (BridgeRoute.Handle_value_miss b2 w); [done | done | done |].
      intros Hin. by apply Hout, Hsame.
Qed.

End Facts.

Section Lifecycle.
Context `{!Runtime}.

(** X12. [Init] does not reject a list without destinations: it takes the
    specification, keeps the registry, reports the empty list to the logger
    and returns; [Handle] of the filter so loaded then panics for every
    request, whatever registry is injected afterwards.  With a destination
    or more [Init] makes no call, and [Handle] of the loaded filter never
    panics. *)
Theorem Init_keeps_empty_destinations (s : Spec) (b : Bridge) (w : World) :
  ∃ b' w1,
    Init s b w = Ok b' w1
    ∧ spec b' = s ∧ muxMapper b' = muxMapper b
    ∧ w_ctx w1 = w_ctx w
    ∧ (Destinations s = [] →
         w_trace w1 = w_trace w ++ [EvLog Errorf "not any destination defined" []]
         ∧ ∀ mapper w2,
             Handle (InjectMuxMapper mapper b') w2
             = Panic "not any destination defined")
    ∧ (Destinations s ≠ [] →
         w1 = w
         ∧ ∀ mapper w2 msg, Handle (InjectMuxMapper mapper b') w2 ≠ Panic msg).
Proof.
  unfold Init, reload. simpl.
  destruct (Destinations s) as [|d0 ds] eqn:Hds.
  - exists {| spec := s; muxMapper := muxMapper b |},
      {| w_ctx := w_ctx w;
         w_trace := w_trace w ++ [EvLog Errorf "not any destination defined" []] |}.
    split; [reflexivity|]. simpl.
    split; [done|]. split; [done|]. split; [done|]. split; [|done].
    intros _. split; [done|].
    intros mapper w2. by apply BridgeRoute.Handle_panic.
  - exists {| spec := s; muxMapper := muxMapper b |}, w.
    split; [reflexivity|].
    split; [done|]. split; [done|]. split; [done|]. split; [done|].
    intros _. split; [done|].
    intros mapper w2 msg.
    set (b' := InjectMuxMapper mapper {| spec := s; muxMapper := muxMapper b |}).
    set (dest := Get (req_header (ctx_request (w_ctx w2))) bridgeDestHeader).
    destruct (decide (dest = "")) as [Hempty|Hne].
    + rewrite (BridgeRoute.Handle_default b' w2 d0) by (done || (simpl; by rewrite Hds)).
      by destruct (muxMapper b' d0).
    + destruct (decide (dest ∈ Destinations (spec b'))) as [Hin|Hout].
      * rewrite (BridgeRoute.Handle_value_found b' w2 d0)
          by (done || (simpl; by rewrite Hds)).
        fold dest. by destruct (muxMapper b' dest).
      * rewrite BridgeRoute.Handle_value_miss; [done | | done | done].
        simpl. by rewrite Hds.
Qed.

End Lifecycle.

End BridgeMore.

Module BridgeValues.
Import Http Effect Bridge.

Section Facts.
Context `{!Runtime}.

(** X13. Of several values under the signal header only the first one
    routes the request: two requests that differ in the values after the
    first one alone get the same run when the first value is a destination,
    and the handler finds no value left under the signal header. *)
Theorem Handle_first_value_routes (b : Bridge) (c : Context) (trace : list Event)
    (h : Header) (v : string) (vs vs' : list string) :
  let arrive values :=
    {| w_ctx := with_req_header (<[canonicalKey bridgeDestHeader := v :: values]> h) c;
       w_trace := trace |} in
  v ≠ "" →
  v ∈ Destinations (spec b) →
  Handle b (arrive vs) = Handle b (arrive vs')
  ∧ ∀ handler, muxMapper b v = Some handler →
      ∃ seen w', Handle b (arrive vs) = Ok "" w'
        ∧ w_ctx w' = (handler seen).1
        ∧ Values (req_header (ctx_request seen)) bridgeDestHeader = [].
Proof.
  intros arrive Hne Hin.
  destruct (Destinations (spec b)) as [|d0 ds] eqn:Hds.
  { by apply elem_of_nil in Hin. }
  assert (Hget : ∀ values,
            Get (req_header (ctx_request (w_ctx (arrive values)))) bridgeDestHeader = v).
  { intros values. unfold Get, Values. simpl. by rewrite lookup_insert_eq. }
  assert (Hrun : ∀ values,
            Handle b (arrive values) =
            match muxMapper b v with
            | Some handler =>
                Ok "" {| w_ctx := (handler (with_req_header
                                     (delete (canonicalKey bridgeDestHeader) h) c)).1;
                         w_trace := trace ++
                           [EvReqHeaderDel bridgeDestHeader; EvGetHandler v;
                            EvHandle v] |}
            | None =>
                Ok resultDestinationNotFound
                  {| w_ctx := with_status StatusServiceUnavailable
                                (with_req_header
                                   (delete (canonicalKey bridgeDestHeader) h) c);
                     w_trace := trace ++
                       [EvReqHeaderDel bridgeDestHeader; EvGetHandler v;
                        EvLog Errorf "failed to get running object %s" [AString d0];
                        EvSetStatusCode StatusServiceUnavailable] |}
            end).
  { intros values.
    rewrite (BridgeRoute.Handle_value_found b (arrive values) d0);
      rewrite ?Hget, ?Hds; [|done|done|done].
    simpl. unfold Del, with_req_header. simpl. by rewrite delete_insert_eq. }
  split; [by rewrite !Hrun|].
  intros handler Hh. rewrite Hrun, Hh. do 2 eexists. split; [done|].
  split; [done|]. simpl. unfold Values. by rewrite lookup_delete_eq.
Qed.

End Facts.

End BridgeValues.

(** ** The further properties on concrete requests *)

Module MoreChecks.
Import Http Effect Examples.

(** [match_reads_named_headers] on two requests that differ in a header no
    rule names and in their responses. *)
Lemma match_reads_named_headers_witness :
  let m := {| Mock.spec := {| Mock.Rules :=
                [rule (matchRule "" "" {[ "A" := exact "1" ]} false) 200 "" 0] |} |} in
  @Mock.match_ plainRuntime m (request "/a" {[ "A" := ["1"]; "B" := ["x"] ]})
  = @Mock.match_ plainRuntime m
      (with_status 404 (request "/a" {[ "A" := ["1"]; "C" := ["y"] ]})).
Proof.
  intros m.
  apply (@MockMore.match_reads_named_headers plainRuntime m); [done|].
  intros r key Hin Hsome. apply list_elem_of_singleton in Hin as ->.
  destruct Hsome as [sm Hsm]. simpl in Hsm.
  apply lookup_singleton_Some in Hsm as [<- _]. by vm_compute.
Defined.

(** [catch_all_rule] on a rule list that ends with a rule without
    criteria. *)
Lemma catch_all_rule_witness :
  let m := {| Mock.spec := {| Mock.Rules :=
                [rule (matchRule "/a" "" ∅ false) 201 "" 0;
                 rule (matchRule "" "" ∅ false) 404 "" 0] |} |} in
  ∃ w', @Mock.Handle plainRuntime TimerFired m (world "/other" ∅)
        = Ok Mock.resultMocked w'.
Proof.
  intros m.
  by destruct (@MockMore.catch_all_rule plainRuntime TimerFired m 1%nat
                 (rule (matchRule "" "" ∅ false) 404 "" 0) (world "/other" ∅)
                 eq_refl eq_refl eq_refl eq_refl) as [_ Hrun].
Defined.

(** [mock_order_irrelevant] on a rule with two headers, visited in the two
    orders. *)
Lemma mock_order_irrelevant_witness :
  let r := {| Mock.r_Match := matchRule "" "" ∅ false; Mock.r_Code := 201;
              Mock.r_Headers := {[ "X" := "v"; "Y" := "u" ]}; Mock.r_Body := "hi";
              Mock.r_Delay := ""; Mock.r_delay := 0 |} in
  ∃ w1 w2, @Mock.mock plainRuntime TimerFired r (world "/a" ∅) = Ok tt w1
    ∧ @Mock.mock reverseRuntime DoneFired r (world "/a" ∅) = Ok tt w2
    ∧ w_ctx w1 = w_ctx w2.
Proof.
  intros r.
  destruct (@MockOrder.mock_order_irrelevant plainRuntime reverseRuntime
              TimerFired DoneFired r (world "/a" ∅) eq_refl
              (λ k1 k2 _ _ Heq, Heq))
    as (w1 & w2 & _ & H1 & H2 & Hctx & _).
  by exists w1, w2.
Defined.

(** [Handle_dispatches_to_destination] on the request that names [b]. *)
Lemma Handle_dispatches_to_destination_witness :
  ∃ name, name ∈ Bridge.Destinations (Bridge.spec (bridge mapperB))
    ∧ is_Some (mapperB name).
Proof.
  assert (∃ w', @Bridge.Handle plainRuntime (bridge mapperB) (world "/" (signal "b"))
                = Ok "" w') as [w' Hrun].
  { eexists. by vm_compute. }
  destruct (@BridgeMore.Handle_dispatches_to_destination plainRuntime
              (bridge mapperB) (world "/" (signal "b")) w' Hrun)
    as (name & handler & _ & _ & Hin & Hh & _).
  exists name. split; [done | by exists handler].
Defined.

(** [Handle_not_found_request] on the request that names [a], which the
    registry does not know. *)
Lemma Handle_not_found_request_witness :
  ∃ w', @Bridge.Handle plainRuntime (bridge mapperB) (world "/" (signal "a"))
        = Ok Bridge.resultDestinationNotFound w'
    ∧ @Values plainRuntime (req_header (ctx_request (w_ctx w'))) Bridge.bridgeDestHeader = [].
Proof.
  destruct (@BridgeMore.Handle_not_found_request plainRuntime
              (bridge mapperB) (world "/" (signal "a")))
    as [_ Hfound]; [done | by vm_compute |].
  destruct Hfound as (w' & Hrun & Hgone & _); [by left | done |].
  by exists w'.
Defined.

(** [Handle_destinations_as_set] on a list and the same list with its
    elements repeated. *)
Lemma Handle_destinations_as_set_witness :
  @Bridge.Handle plainRuntime
    {| Bridge.spec := {| Bridge.Destinations := ["a"; "b"] |};
       Bridge.muxMapper := mapperB |} (world "/" (signal "b"))
  = @Bridge.Handle plainRuntime
      {| Bridge.spec := {| Bridge.Destinations := ["a"; "b"; "b"; "a"] |};
         Bridge.muxMapper := mapperB |} (world "/" (signal "b")).
Proof.
  apply (@BridgeMore.Handle_destinations_as_set plainRuntime); [done|].
  intros d. rewrite !elem_of_cons, !elem_of_nil. tauto.
Defined.

(** [Handle_first_value_routes] on a signal header with two values. *)
Lemma Handle_first_value_routes_witness :
  @Bridge.Handle plainRuntime (bridge mapperB)
    {| w_ctx := with_req_header (<[Bridge.bridgeDestHeader := ["b"; "c"]]> ∅)
                  (request "/" ∅);
       w_trace := [] |}
  = @Bridge.Handle plainRuntime (bridge mapperB)
      {| w_ctx := with_req_header (<[Bridge.bridgeDestHeader := ["b"]]> ∅)
                    (request "/" ∅);
         w_trace := [] |}.
Proof.
  destruct (@BridgeValues.Handle_first_value_routes plainRuntime (bridge mapperB)
              (request "/" ∅) [] ∅ "b" ["c"] []) as [Hsame _];
    [done | by right; left | exact Hsame].
Defined.

End MoreChecks.
